(** * Strobe decoding and trial/block alignment of [spike_sorting/utils_oe.py]

    A shallow embedding of [reconstruct_8bits_words], [check_strobes] and
    [find_events_codes], followed by the properties of the decoder and of the
    aligner.

    Conventions of the embedding.
    - numpy integer arrays and pandas integer columns are [list Z]; the
      decoded words live in a float64 array in the source, but only hold
      integers that a float64 represents exactly, so they are [Z] too.
    - array positions (the output of [np.where], loop counters) are [nat].
    - an exception of the source is the [Raise] result.
    - the states of the event table are 0 or 1 ([is_bit]); the embedding
      itself takes any integer, and the properties state where they need
      bit states. *)

From Stdlib Require Import ZArith String Ascii DecimalString Lia.
From stdpp Require Import base list sorting.

Local Open Scope Z_scope.

(** ** Exceptions *)

(** [KeyOrIndexError] is the exception of a subscript [a[i]] on a column of
    the event table for a missing [i]: an [IndexError] when [a] is a numpy
    array, a [KeyError] when it is a pandas Series. *)
Inductive exn : Set :=
| IndexError
| ValueError
| KeyOrIndexError.

Inductive result (A : Type) : Type :=
| Ok (a : A)
| Raise (e : exn).

Arguments Ok {A} a.
Arguments Raise {A} e.

#[global] Instance result_ret : MRet result := fun A a => Ok a.

#[global] Instance result_bind : MBind result := fun A B k m =>
  match m with
  | Ok a => k a
  | Raise e => Raise e
  end.

(** [for x in xs: s = body x s], stopping at the first exception. *)
Fixpoint for_each {A S : Type} (xs : list A) (body : A -> S -> result S)
    (s : S) : result S :=
  match xs with
  | [] => Ok s
  | x :: xs' => s' ← body x s; for_each xs' body s'
  end.

(** ** numpy and Python primitives *)

(** [a[i]] on an array: an [IndexError] out of range. *)
Definition getitem {A : Type} (a : list A) (i : nat) : result A :=
  match a !! i with
  | Some x => Ok x
  | None => Raise IndexError
  end.

(** [a[i] = x] on an array. *)
Definition setitem {A : Type} (a : list A) (i : nat) (x : A) : result (list A) :=
  if decide (i < length a)%nat then Ok (<[i := x]> a) else Raise IndexError.

(** [a[lo:hi]] for non-negative bounds: both ends are clipped to the array. *)
Definition slice {A : Type} (a : list A) (lo hi : nat) : list A :=
  take (hi - lo) (drop lo a).

Fixpoint where_from (i : nat) (mask : list bool) : list nat :=
  match mask with
  | [] => []
  | b :: mask' =>
      if b then i :: where_from (S i) mask' else where_from (S i) mask'
  end.

(** [np.where(mask)[0]]: the positions that hold [True], ascending. *)
Definition np_where (mask : list bool) : list nat := where_from 0 mask.

(** [a == c], elementwise. *)
Definition eq_scalar (a : list Z) (c : Z) : list bool :=
  map (fun x => Z.eqb x c) a.

(** [enumerate(l)]. *)
Definition enumerate {A : Type} (l : list A) : list (nat * A) :=
  zip (seq 0 (length l)) l.

(** [str(item)] for a numpy integer: its decimal numeral. *)
Definition str (z : Z) : string := NilZero.string_of_int (Z.to_int z).

(** ["".join(parts)]. *)
Definition join (parts : list string) : string := String.concat "" parts.

Fixpoint digits_base2 (s : string) (acc : Z) : result Z :=
  match s with
  | EmptyString => Ok acc
  | String c s' =>
      if Ascii.eqb c "0" then digits_base2 s' (2 * acc)
      else if Ascii.eqb c "1" then digits_base2 s' (2 * acc + 1)
      else Raise ValueError
  end.

(** [int(s, 2)] on the strings that [join (map str _)] can build (decimal
    digits and minus signs only): an optional leading minus sign, then at
    least one binary digit and nothing else; a [ValueError] otherwise. *)
Definition int_base2 (s : string) : result Z :=
  match s with
  | EmptyString => Raise ValueError
  | String c s' =>
      if Ascii.eqb c "-" then
        match s' with
        | EmptyString => Raise ValueError
        | _ => v ← digits_base2 s' 0; Ok (- v)
        end
      else digits_base2 s 0
  end.

(** ** [reconstruct_8bits_words] *)

(** [e_state[i]] for a position [i]. The function is called with numpy
    arrays or, by [find_events_codes], with columns of the event table:
    pandas Series with the default index, where label and position agree.
    Both give the entry at position [i]; for a missing [i] the former
    raises [IndexError] and the latter [KeyError]. *)
Definition state_at (e_state : list Z) (i : nat) : result Z :=
  match e_state !! i with
  | Some x => Ok x
  | None => Raise KeyOrIndexError
  end.

(** Body of [for ch in np.arange(0, 7)]. The positions in [idx_ch] are
    relative to the slice [e_channel[idx_old:idx_strobe]], and [e_state] is
    read at that position as it is. *)
Definition channel_body (e_channel e_state : list Z) (idx_old idx_strobe : nat)
    (ch : nat) (current_8code : list Z) : result (list Z) :=
  let idx_ch :=
    np_where (eq_scalar (slice e_channel idx_old idx_strobe) (Z.of_nat ch + 1)) in
  v ← match last idx_ch with
      | Some i => state_at e_state i
      | None => getitem current_8code (7 - ch)
      end;
  setitem current_8code (7 - ch) v.

(** [int("".join([str(item) for item in current_8code]), 2)]. *)
Definition word_of_register (current_8code : list Z) : result Z :=
  int_base2 (join (map str current_8code)).

(** Body of [for n_strobe, idx_strobe in enumerate(real_strobes)], on the
    loop state [(current_8code, full_word)]. [full_word] is a float64 array
    in the source: it holds a word exactly up to [2 ^ 53], and a word read
    from bit states is at most 127. *)
Definition strobe_body (e_channel e_state : list Z) (idx_old : nat)
    (it : nat * nat) (st : list Z * list Z) : result (list Z * list Z) :=
  let '(n_strobe, idx_strobe) := it in
  let '(current_8code, full_word) := st in
  current_8code' ←
    for_each (seq 0 7) (channel_body e_channel e_state idx_old idx_strobe)
      current_8code;
  w ← word_of_register current_8code';
  full_word' ← setitem full_word n_strobe w;
  Ok (current_8code', full_word').

(** [idx_old] is set to 0 before the loop and is not assigned again. *)
Definition reconstruct_8bits_words (real_strobes : list nat)
    (e_channel e_state : list Z) : result (list Z) :=
  let idx_old := 0%nat in
  let current_8code := replicate 8 0 in
  let full_word := replicate (length real_strobes) 0 in
  st ← for_each (enumerate real_strobes) (strobe_body e_channel e_state idx_old)
         (current_8code, full_word);
  Ok (snd st).

(** ** [check_strobes] *)

(** One entry of the behavioural record [bhv], in key order. Of a trial the
    code reads the first row of [BehavioralCodes/CodeNumbers] and the scalar
    [Block[0][0]]; the entries under the first and the last key are skipped
    by [list(bhv.keys())[1:-1]] and never read. *)
Record bhv_entry : Type := {
  CodeNumbers : list Z;
  Block : Z
}.

(** [list(bhv.keys())[1:-1]], as the entries themselves. *)
Definition trial_entries (bhv : list bhv_entry) : list bhv_entry :=
  slice bhv 1 (length bhv - 1).

(** [np.concatenate(arrays)] of one-dimensional arrays: a [ValueError] on an
    empty list of arrays. *)
Definition np_concatenate (arrays : list (list Z)) : result (list Z) :=
  match arrays with
  | [] => Raise ValueError
  | _ => Ok (concat arrays)
  end.

(** [np.sum(a)]. The source adds float64 values: the integer sum is what
    it computes as long as the entries and the partial sums are integers
    within [2 ^ 53] in magnitude. *)
Definition np_sum (a : list Z) : Z := foldr Z.add 0 a.

(** [a - b] for arrays of the same length. The source subtracts float64
    values, exactly so for integers within [2 ^ 53] in magnitude. *)
Definition np_sub (a b : list Z) : list Z := zip_with Z.sub a b.

(** A call [logging.info(msg, *args)]. *)
Record log_call : Type := {
  log_msg : string;
  log_args : list Z
}.

Definition info (msg : string) (args : list Z) : log_call :=
  {| log_msg := msg; log_args := args |}.

(** The function only logs: its value here is the list of its [logging.info]
    calls, in order. The one statement that can raise comes before the first
    of them. Two calls pass an argument to a message without a format
    directive: [logging] reports the failed formatting on the error stream
    from inside its handler and does not raise. *)
Definition check_strobes (bhv : list bhv_entry) (full_word : list Z)
    (real_strobes : list nat) : result (list log_call) :=
  bhv_codes ← np_concatenate (map CodeNumbers (trial_entries bhv));
  let log1 :=
    if decide (length full_word ≠ length real_strobes) then
      [ info "Warning, Strobe and codes number do not match" [];
        info "Strobes =" [Z.of_nat (length real_strobes)];
        info "codes number =" [Z.of_nat (length full_word)] ]
    else
      [ info "Strobe and codes number do match" [];
        info "Strobes = %d" [Z.of_nat (length real_strobes)];
        info "codes number = %d" [Z.of_nat (length full_word)] ] in
  let log2 :=
    if decide (length full_word ≠ length bhv_codes) then
      [ info "Warning, ML and OE code numbers do not match" [] ]
    else
      info "ML and OE code numbers do match" [] ::
      (if decide (np_sum (np_sub bhv_codes full_word) ≠ 0) then
         [ info "Warning, ML and OE codes are different" [] ]
       else
         [ info "ML and OE codes are the same" [] ]) in
  Ok (log1 ++ log2).

(** ** [find_events_codes] *)

(** A row of the event table. *)
Record event : Type := {
  channel : Z;
  state : Z;
  timestamp : Z
}.

(** [a[idx]] for an array of positions [idx]: an [IndexError] as soon as one
    position is out of range. *)
Fixpoint take_at {A : Type} (a : list A) (idx : list nat) : result (list A) :=
  match idx with
  | [] => Ok []
  | i :: idx' => x ← getitem a i; xs ← take_at a idx'; Ok (x :: xs)
  end.

Fixpoint compress {A : Type} (mask : list bool) (a : list A) : list A :=
  match mask, a with
  | b :: mask', x :: a' => if b then x :: compress mask' a' else compress mask' a'
  | _, _ => []
  end.

(** [a[mask]] for a boolean array [mask]: the lengths have to agree. *)
Definition bool_index {A : Type} (a : list A) (mask : list bool) : result (list A) :=
  if decide (length mask = length a) then Ok (compress mask a)
  else Raise IndexError.

Fixpoint drop_repeats (l : list Z) : list Z :=
  match l with
  | [] => []
  | x :: l' =>
      match l' with
      | [] => [x]
      | y :: _ => if Z.eqb x y then drop_repeats l' else x :: drop_repeats l'
      end
  end.

(** [np.unique(a)]: the array is sorted, then one element of every run of
    equal elements is kept. *)
Definition np_unique (a : list Z) : list Z := drop_repeats (merge_sort Z.le a).

(** Body of [for block in np.unique(blocks)], on the loop state
    [(bl_start_trials, bl_end_trials)]. [blocks] is a list and [block] a
    numpy scalar, so [blocks == block] is the elementwise comparison. *)
Definition block_body (blocks start_trials end_trials : list Z) (block : Z)
    (st : list (list Z) * list (list Z)) : result (list (list Z) * list (list Z)) :=
  let '(bl_start_trials, bl_end_trials) := st in
  let idx_block := np_where (eq_scalar blocks block) in
  s ← take_at start_trials idx_block;
  e ← take_at end_trials idx_block;
  Ok (bl_start_trials ++ [s], bl_end_trials ++ [e]).

(** What [find_events_codes] returns, with the [logging.info] calls made on
    the way. *)
Record codes : Type := {
  out_full_word : list Z;
  out_real_strobes : list Z;
  out_bl_start_trials : list (list Z);
  out_bl_end_trials : list (list Z);
  out_blocks : list Z;
  out_log : list log_call
}.

(** The strobes: [channel == 8], [state == 1] and [timestamp > 0]. *)
Definition strobe_mask (events : list event) : list bool :=
  map (fun e => (channel e =? 8) && (state e =? 1) && (0 <? timestamp e)) events.

(** [config.START_CODE] and [config.END_CODE] are parameters: the module
    [spike_sorting.config] is not part of the sources at hand. *)
Definition find_events_codes (START_CODE END_CODE : Z) (events : list event)
    (bhv : list bhv_entry) : result codes :=
  let idx_real_strobes := np_where (strobe_mask events) in
  full_word ←
    reconstruct_8bits_words idx_real_strobes (map channel events) (map state events);
  log ← check_strobes bhv full_word idx_real_strobes;
  real_strobes ← take_at (map timestamp events) idx_real_strobes;
  start_trials ← bool_index real_strobes (eq_scalar full_word START_CODE);
  end_trials ← bool_index real_strobes (eq_scalar full_word END_CODE);
  let blocks := map Block (trial_entries bhv) in
  bl ← for_each (np_unique blocks) (block_body blocks start_trials end_trials) ([], []);
  Ok {| out_full_word := full_word;
        out_real_strobes := real_strobes;
        out_bl_start_trials := fst bl;
        out_bl_end_trials := snd bl;
        out_blocks := np_unique blocks;
        out_log := info "Reconstructing 8 bit words" [] :: log |}.

(** * Definitions for the statements and for the proofs *)

(** ** The decoder, one strobe at a time *)

(** The position of the last event on channel [c] among the first [n] events:
    what the source computes as [idx_ch[-1]] for the slice [e_channel[0:n]]. *)
Definition last_on (e_channel : list Z) (c : Z) (n : nat) : option nat :=
  last (np_where (eq_scalar (slice e_channel 0 n) c)).

(** The new value of the register position of channel [c] after the scan
    of the first [n] events, [old] being the value it held. *)
Definition sampled (e_channel e_state : list Z) (n : nat) (c old : Z) : Z :=
  match last_on e_channel c n with
  | Some i => default old (e_state !! i)
  | None => old
  end.

(** The register after the channel loop of a strobe at position [n]:
    position [p] in 1..7 belongs to channel [8 - p], position 0 to none. *)
Definition sample_register (e_channel e_state : list Z) (n : nat)
    (r : list Z) : list Z :=
  imap (fun p old =>
          if decide (p = 0%nat) then old
          else sampled e_channel e_state n (8 - Z.of_nat p) old) r.

Definition is_bit (z : Z) : Prop := z = 0 ∨ z = 1.

(** The register read as a binary numeral, first position first. *)
Definition word_value (r : list Z) : Z := foldl (fun acc b => 2 * acc + b) 0 r.

(** The registers after each strobe in turn, from the register [r]. *)
Fixpoint registers (e_channel e_state : list Z) (r : list Z)
    (strobes : list nat) : list (list Z) :=
  match strobes with
  | [] => []
  | s :: rest =>
      let r' := sample_register e_channel e_state s r in
      r' :: registers e_channel e_state r' rest
  end.

(** ** The decoder as the specification words it

    An 8-bit register of zeros that persists over the strobes; for each
    strobe in order and each data line 1..7, the transitions of the line in
    the window of the strobe are scanned; the register is then read most
    significant bit first. *)

Module Spec.

(** The event stream: the channel and the state of each event, in order. *)
Definition stream (e_channel e_state : list Z) : list (Z * Z) :=
  zip e_channel e_state.

(** The positions scanned for a strobe at [cur]: those strictly between
    the previous strobe [prev] and [cur]; for the first strobe the
    half-open window from position 0 up to [cur], excluded. *)
Definition window (prev : option nat) (cur : nat) : list nat :=
  match prev with
  | None => seq 0 cur
  | Some p => seq (S p) (cur - S p)
  end.

Definition transition_at (events : list (Z * Z)) (ch : Z) (i : nat) : option Z :=
  match events !! i with
  | Some (c, s) => if Z.eqb c ch then Some s else None
  | None => None
  end.

(** The states of the transitions on line [ch] in the window, in order. *)
Definition transitions (events : list (Z * Z)) (prev : option nat) (cur : nat)
    (ch : Z) : list Z :=
  omap (transition_at events ch) (window prev cur).

(** Line [ch] sets register bit [7 - (ch - 1)] to the state of its last
    transition in the window, and leaves it as it is without one. *)
Definition update_line (events : list (Z * Z)) (prev : option nat) (cur : nat)
    (reg : list Z) (ch : nat) : list Z :=
  match last (transitions events prev cur (Z.of_nat ch)) with
  | Some s => <[(7 - (ch - 1))%nat := s]> reg
  | None => reg
  end.

(** All data lines 1..7 for one strobe. *)
Definition step (events : list (Z * Z)) (prev : option nat) (cur : nat)
    (reg : list Z) : list Z :=
  foldl (update_line events prev cur) reg (seq 1 7).

(** The register as a big-endian binary number. *)
Definition read_msb_first (reg : list Z) : Z :=
  foldl (fun acc b => 2 * acc + b) 0 reg.

Fixpoint run (events : list (Z * Z)) (prev : option nat) (reg : list Z)
    (strobes : list nat) : list Z :=
  match strobes with
  | [] => []
  | s :: rest =>
      let reg' := step events prev s reg in
      read_msb_first reg' :: run events (Some s) reg' rest
  end.

(** One word per strobe, from the all-zero register. *)
Definition decode (strobes : list nat) (e_channel e_state : list Z) : list Z :=
  run (stream e_channel e_state) None (replicate 8 0) strobes.

End Spec.

(** ** Invariants of the register *)

(** Every register position of a data line holds what a scan of the first
    [b] events finds for that line, 0 when it finds nothing. *)
Definition holds_scan (e_channel e_state : list Z) (b : nat) (r : list Z) : Prop :=
  ∀ p old, r !! p = Some old → p ≠ 0%nat →
    old = sampled e_channel e_state b (8 - Z.of_nat p) 0.

Definition bit_register (r : list Z) : Prop :=
  length r = 8%nat ∧ Forall is_bit r ∧ r !! 0%nat = Some 0.

(** Closes [Forall is_bit l] for a list of literals. *)
Ltac solve_bits :=
  repeat first
    [ apply Forall_nil_2
    | apply Forall_cons_2; [first [left; reflexivity | right; reflexivity]|] ].

(** ** The aligner *)

(** [g] is the array [a] at the positions of the trials with label [b]. *)
Definition group_of (blocks a : list Z) (b : Z) (g : list Z) : Prop :=
  take_at a (np_where (eq_scalar blocks b)) = Ok g.

(** The values [find_events_codes] computes before the block loop. *)
Definition decoded (START_CODE END_CODE : Z) (events : list event)
    (full_word real_strobes start_trials end_trials : list Z) : Prop :=
  reconstruct_8bits_words (np_where (strobe_mask events))
    (map channel events) (map state events) = Ok full_word
  ∧ take_at (map timestamp events) (np_where (strobe_mask events)) = Ok real_strobes
  ∧ bool_index real_strobes (eq_scalar full_word START_CODE) = Ok start_trials
  ∧ bool_index real_strobes (eq_scalar full_word END_CODE) = Ok end_trials.

(** ** Sample sessions *)

Definition ev (c s t : Z) : event := {| channel := c; state := s; timestamp := t |}.

(** Two trials: the words 9 and 18 are strobed at 10 and 15, then at 20 and
    25. Lines 1 and 4 carry the word 9, lines 2 and 5 the word 18. *)
Definition events_2 : list event :=
  [ ev 1 1 9; ev 4 1 9; ev 8 1 10;
    ev 1 0 14; ev 4 0 14; ev 2 1 14; ev 5 1 14; ev 8 1 15;
    ev 2 0 19; ev 5 0 19; ev 1 1 19; ev 4 1 19; ev 8 1 20;
    ev 1 0 24; ev 4 0 24; ev 2 1 24; ev 5 1 24; ev 8 1 25 ].

(** A third trial, strobed at 30 and 35. *)
Definition events_3 : list event :=
  events_2 ++
  [ ev 2 0 29; ev 5 0 29; ev 1 1 29; ev 4 1 29; ev 8 1 30;
    ev 1 0 34; ev 4 0 34; ev 2 1 34; ev 5 1 34; ev 8 1 35 ].

Definition no_trial : bhv_entry := {| CodeNumbers := []; Block := 0 |}.

Definition trial (codes : list Z) (block : Z) : bhv_entry :=
  {| CodeNumbers := codes; Block := block |}.

(** Three trials with the block labels 1, 1, 2. *)
Definition bhv_112 : list bhv_entry :=
  [ no_trial; trial [9; 18] 1; trial [9; 18] 1; trial [9; 18] 2; no_trial ].

(** Two trials with the block labels 2, 1. *)
Definition bhv_21 : list bhv_entry :=
  [ no_trial; trial [9; 18] 2; trial [9; 18] 1; no_trial ].

(** The distinct labels in the order of their first occurrence. *)
Fixpoint first_occurrences (seen blocks : list Z) : list Z :=
  match blocks with
  | [] => []
  | b :: blocks' =>
      if decide (b ∈ seen) then first_occurrences seen blocks'
      else b :: first_occurrences (b :: seen) blocks'
  end.

(** The [logging.info] calls of the comparison with the strobe count. *)
Definition strobe_count_log (full_word : list Z) (real_strobes : list nat)
    : list log_call :=
  if decide (length full_word ≠ length real_strobes) then
    [ info "Warning, Strobe and codes number do not match" [];
      info "Strobes =" [Z.of_nat (length real_strobes)];
      info "codes number =" [Z.of_nat (length full_word)] ]
  else
    [ info "Strobe and codes number do match" [];
      info "Strobes = %d" [Z.of_nat (length real_strobes)];
      info "codes number = %d" [Z.of_nat (length full_word)] ].

(** * The signal helpers *)

(** ** Exceptions of the signal helpers *)

(** [LookupError] stands for the [IndexError] or [KeyError] of a subscript,
    whichever the container raises. [ZeroStep] stands for the exception of
    [np.arange] on a zero step: a [ZeroDivisionError] for Python integers,
    another class for numpy scalars. *)
Inductive failure : Set :=
| ZeroDivisionError
| ZeroStep
| LookupError
| Builtin (e : exn).

Inductive outcome (A : Type) : Type :=
| Return (a : A)
| Fail (f : failure).

Arguments Return {A} a.
Arguments Fail {A} f.

#[global] Instance outcome_ret : MRet outcome := fun A a => Return a.

#[global] Instance outcome_bind : MBind outcome := fun A B k m =>
  match m with
  | Return a => k a
  | Fail f => Fail f
  end.

Definition lift {A : Type} (r : result A) : outcome A :=
  match r with
  | Ok a => Return a
  | Raise e => Fail (Builtin e)
  end.

(** ** [signal_downsample] *)

(** [np.arange(start, stop, step)] on integers: [ceil((stop - start) / step)]
    values when that is positive, none otherwise; a zero step raises. *)
Definition np_arange (start stop step : Z) : outcome (list Z) :=
  if decide (step = 0) then Fail ZeroStep
  else
    Return (map (fun k => start + Z.of_nat k * step)
              (seq 0 (Z.to_nat (- ((start - stop) / step))))).

(** [a[i]] for an integer [i] that may be negative: positions count from the
    end then. *)
Definition getitemZ {A : Type} (a : list A) (i : Z) : result A :=
  if decide (0 ≤ i) then getitem a (Z.to_nat i)
  else if decide (- Z.of_nat (length a) ≤ i) then
    getitem a (Z.to_nat (Z.of_nat (length a) + i))
  else Raise IndexError.

(** [a[idx]] for an array [idx] of integers. *)
Fixpoint take_atZ {A : Type} (a : list A) (idx : list Z) : result (list A) :=
  match idx with
  | [] => Ok []
  | i :: idx' => x ← getitemZ a i; xs ← take_atZ a idx'; Ok (x :: xs)
  end.

(** [signal_downsample(x, downsample, idx_start, axis=0)]: the array is
    indexed along its first axis, so [x] is the list of its entries along
    that axis. *)
Definition signal_downsample {A : Type} (x : list A) (downsample idx_start : Z)
    : outcome (list A) :=
  idx_ds ← np_arange idx_start (Z.of_nat (length x)) downsample;
  lift (take_atZ x idx_ds).

(** ** [select_timestamps] *)

(** [fs], [t_before_event] and [downsample] are integers; the timestamps are
    sample numbers. *)
Definition select_timestamps (c_timestamps e_timestamps idx_spiketimes : list Z)
    (fs t_before_event downsample : Z) : outcome (list Z * Z * list Z) :=
  e0 ← match e_timestamps !! 0%nat with
       | Some t => Return t
       | None => Fail LookupError
       end;
  let start_time := np_where (eq_scalar c_timestamps e0) in
  let start_time :=
    match start_time with
    | i :: _ => Z.of_nat i
    | [] => 0
    end in
  let start_time :=
    if decide (start_time - fs * t_before_event > 0)
    then start_time - fs * t_before_event else 0 in
  filtered_timestamps ← signal_downsample c_timestamps downsample start_time;
  spiketimes ← lift (take_atZ c_timestamps idx_spiketimes);
  Return (filtered_timestamps, start_time, spiketimes).

(** ** [butter_lowpass_filter] and [compute_lfp] *)

(** A two-dimensional array: its shape and its rows. *)
Record array2 (A : Type) : Type := {
  shape0 : nat;
  shape1 : nat;
  rows : list (list A)
}.

Arguments shape0 {A} _.
Arguments shape1 {A} _.
Arguments rows {A} _.

Definition well_shaped {A : Type} (a : array2 A) : Prop :=
  length (rows a) = shape0 a ∧ Forall (fun r => length r = shape1 a) (rows a).

(** [for x in xs: s = body x s] for bodies that fail with a [failure]. *)
Fixpoint for_each_o {A S : Type} (xs : list A) (body : A -> S -> outcome S)
    (s : S) : outcome S :=
  match xs with
  | [] => Return s
  | x :: xs' => s' ← body x s; for_each_o xs' body s'
  end.

(** [row[...] = v] for one-dimensional [row] and [v]: [v] has the length of
    [row] or is broadcast from length 1; a [ValueError] otherwise. *)
Definition assign_row {A : Type} (row v : list A) : result (list A) :=
  if decide (length v = length row) then Ok v
  else
    match v with
    | [x] => Ok (replicate (length row) x)
    | _ => Raise ValueError
    end.

Section Filter.

(** The samples are floating-point numbers, of which the code only uses the
    zero of [np.zeros]. [lfilter] stands for [lfilter(b, a, _)] with the
    coefficients [b, a] that [butter(N=order, Wn=fc, fs=fs, btype="low")]
    returns: the filter design and its arithmetic are not modelled, and the
    arguments [fc], [fs] and [order] of the source are part of [lfilter]. *)
Context {A : Type}.
Variable zero : A.
Variable lfilter : list A -> list A.

(** [data[:, i]]. *)
Definition column (data : array2 A) (i : nat) : list A :=
  map (fun r => default zero (r !! i)) (rows data).

(** Body of [for i_data in range(data.shape[1])], on the array [y]. *)
Definition filter_body (data : array2 A) (downsample : Z) (i_data : nat)
    (y : list (list A)) : outcome (list (list A)) :=
  let y_f := lfilter (column data i_data) in
  v ← signal_downsample y_f downsample 0;
  row ← lift (getitem y i_data);
  row' ← lift (assign_row row v);
  lift (setitem y i_data row').

(** [data.shape[0] / downsample] divides Python integers; [np.zeros] refuses
    a negative dimension. The result is the list of the rows of [y]. *)
Definition butter_lowpass_filter (data : array2 A) (downsample : Z)
    : outcome (list (list A)) :=
  if decide (downsample = 0) then Fail ZeroDivisionError
  else
    let width := Z.of_nat (shape0 data) / downsample + 1 in
    if decide (width < 0) then Fail (Builtin ValueError)
    else
      let y := replicate (shape1 data) (replicate (Z.to_nat width) zero) in
      for_each_o (seq 0 (shape1 data)) (filter_body data downsample) y.

End Filter.

(** ** Sample recordings *)

(** A stand-in for the filter that keeps the length of its input. *)
Definition double_samples (x : list Z) : list Z := map (Z.mul 2) x.

Definition samples_5x2 : array2 Z :=
  {| shape0 := 5; shape1 := 2;
     rows := [[1; 10]; [2; 20]; [3; 30]; [4; 40]; [5; 50]] |}.

Definition samples_4x2 : array2 Z :=
  {| shape0 := 4; shape1 := 2;
     rows := [[1; 10]; [2; 20]; [3; 30]; [4; 40]] |}.

Definition samples_2x2 : array2 Z :=
  {| shape0 := 2; shape1 := 2; rows := [[1; 10]; [2; 20]] |}.

(** ** [compute_lfp] *)

(** [a[start:]] for an integer [start]: a negative one counts from the end,
    and both are clipped to the array. *)
Definition slice_from {A : Type} (a : list A) (start : Z) : list A :=
  if decide (0 ≤ start) then drop (Z.to_nat start) a
  else drop (Z.to_nat (Z.of_nat (length a) + start)) a.

(** [a.reshape(2, -1)]: the entries in row-major order, cut in two halves; a
    [ValueError] for an odd number of entries. *)
Definition reshape_2 {A : Type} (a : array2 A) : result (array2 A) :=
  let flat := concat (rows a) in
  let size := length flat in
  if decide (size mod 2 = 0)%nat then
    Ok {| shape0 := 2; shape1 := size / 2;
          rows := [take (size / 2) flat; drop (size / 2) flat] |}
  else Raise ValueError.

Fixpoint map_rows {A B : Type} (f : A -> result B) (l : list A) : result (list B) :=
  match l with
  | [] => Ok []
  | x :: l' => y ← f x; ys ← map_rows f l'; Ok (y :: ys)
  end.

(** [signal_downsample(x, downsample, idx_start, axis=1)] on a
    two-dimensional array: [x[:, idx_ds]]. The positions are checked against
    the second dimension, whatever the number of rows. *)
Definition signal_downsample_axis1 {A : Type} (x : array2 A)
    (downsample idx_start : Z) : outcome (array2 A) :=
  idx_ds ← np_arange idx_start (Z.of_nat (shape1 x)) downsample;
  if forallb (fun i => (- Z.of_nat (shape1 x) <=? i) && (i <? Z.of_nat (shape1 x)))
       idx_ds
  then
    rows' ← lift (map_rows (fun r => take_atZ r idx_ds) (rows x));
    Return {| shape0 := shape0 x; shape1 := length idx_ds; rows := rows' |}
  else Fail (Builtin IndexError).

Section Lfp.

Context {A : Type}.
Variable zero : A.
Variable lfilter : list A -> list A.

(** [config.DOWNSAMPLE] is a parameter; [config.FC], [config.FS] and
    [config.ORDER] only reach [butter] and are part of [lfilter]. *)
Definition compute_lfp (DOWNSAMPLE : Z) (c_samples : array2 A) (start_time : Z)
    : outcome (list (list A) * array2 A) :=
  let tail := slice_from (rows c_samples) start_time in
  let lfp_in :=
    {| shape0 := length tail; shape1 := shape1 c_samples - 2;
       rows := map (take (shape1 c_samples - 2)) tail |} in
  LFP_ds ← butter_lowpass_filter zero lfilter lfp_in DOWNSAMPLE;
  let eyes :=
    {| shape0 := length tail; shape1 := min 2 (shape1 c_samples);
       rows := map (drop (shape1 c_samples - 2)) tail |} in
  eyes2 ← lift (reshape_2 eyes);
  eyes_ds ← signal_downsample_axis1 eyes2 DOWNSAMPLE 0;
  Return (LFP_ds, eyes_ds).

End Lfp.

Definition samples_5x3 : array2 Z :=
  {| shape0 := 5; shape1 := 3;
     rows := [[1; 10; 100]; [2; 20; 200]; [3; 30; 300]; [4; 40; 400];
              [5; 50; 500]] |}.

Definition samples_4x3 : array2 Z :=
  {| shape0 := 4; shape1 := 3;
     rows := [[1; 10; 100]; [2; 20; 200]; [3; 30; 300]; [4; 40; 400]] |}.

(** ** Definitions for the statements on the error cases and the signal helpers *)

(** An integer of magnitude at most [2 ^ 53]: a float64 holds it exactly,
    and the float64 sum or difference of two such integers is exact when
    the result is one of them. *)
Definition float_exact (z : Z) : Prop := Z.abs z ≤ 2 ^ 53.

(** The numerals that [int(_, 2)] cannot read as they stand: a minus sign
    or a digit 2..9 in front. *)
Definition not_binary (v : Z) : Prop := v < 0 ∨ 2 ≤ v ≤ 9.

(** The last event of line [c] before position [s], at position [i]. *)
Definition last_event_before (e_channel : list Z) (c : Z) (s i : nat) : Prop :=
  (i < s)%nat ∧ e_channel !! i = Some c
  ∧ ∀ j, (i < j < s)%nat → e_channel !! j ≠ Some c.

(** A strobe: an event on line 8 with state 1 and a positive timestamp. *)
Definition is_strobe (e : event) : bool :=
  (channel e =? 8) && (state e =? 1) && (0 <? timestamp e).

(** The entries of [a] whose trial has the label [b], in trial order. *)
Definition labelled (blocks a : list Z) (b : Z) : list Z :=
  map snd (filter (fun p : Z * Z => fst p = b) (zip blocks a)).

(** Where [select_timestamps] looks for the first event: the first position
    of [e0] in [c_timestamps], or 0 when [e0] does not occur. *)
Definition first_position (c_timestamps : list Z) (e0 : Z) (i0 : nat) : Prop :=
  (c_timestamps !! i0 = Some e0 ∧ ∀ j, (j < i0)%nat → c_timestamps !! j ≠ Some e0)
  ∨ (i0 = 0%nat ∧ ∀ j, c_timestamps !! j ≠ Some e0).

(** The filtered column [i] of [data], downsampled. *)
Definition filtered_column {A : Type} (zero : A) (lfilter : list A -> list A)
    (data : array2 A) (downsample : Z) (i : nat) : list A :=
  match signal_downsample (lfilter (column zero data i)) downsample 0 with
  | Return v => v
  | Fail _ => []
  end.

(** The rows of [c_samples] from [start_time] on, cut to their last two
    entries; these entries in row-major order; the number of these rows. *)
Definition eye_rows {A : Type} (c_samples : array2 A) (start_time : Z)
    : list (list A) :=
  map (drop (shape1 c_samples - 2)) (drop (Z.to_nat start_time) (rows c_samples)).

Definition eye_flat {A : Type} (c_samples : array2 A) (start_time : Z) : list A :=
  concat (eye_rows c_samples start_time).

Definition rows_left {A : Type} (c_samples : array2 A) (start_time : Z) : nat :=
  (shape0 c_samples - Z.to_nat start_time)%nat.

(** * Properties *)

(** ** The embedding on small inputs *)

Example decode_ex :
  reconstruct_8bits_words [0;2]%nat [8;1;8;2] [1;1;1;1] = Ok [0;1].
Proof. vm_compute. reflexivity. Qed.

Example unique_ex : np_unique [2;1;2;3;1] = [1;2;3].
Proof. vm_compute. reflexivity. Qed.

Example spec_decode_ex : Spec.decode [0;2]%nat [8;1;8;2] [1;1;1;1] = [0;1].
Proof. vm_compute. reflexivity. Qed.

(** ** The scan of one channel *)

Lemma where_from_app (k : nat) (m1 m2 : list bool) :
  where_from k (m1 ++ m2) = where_from k m1 ++ where_from (k + length m1) m2.
Proof.
  revert k. induction m1 as [|b m1 IH]; intros k; simpl.
  - by rewrite Nat.add_0_r.
  - rewrite IH, Nat.add_succ_r. by destruct b.
Qed.

Lemma where_from_bounds (k i : nat) (mask : list bool) :
  i ∈ where_from k mask → (k ≤ i < k + length mask)%nat.
Proof.
  revert k. induction mask as [|b mask IH]; intros k; simpl.
  - by intros ?%elem_of_nil.
  - destruct b; [rewrite elem_of_cons; intros [->|H%IH]|intros H%IH]; lia.
Qed.

Lemma last_on_0 (e_channel : list Z) (c : Z) : last_on e_channel c 0 = None.
Proof. reflexivity. Qed.

Lemma last_on_S (e_channel : list Z) (c : Z) (n : nat) :
  last_on e_channel c (S n) =
    if decide (e_channel !! n = Some c) then Some n else last_on e_channel c n.
Proof.
  unfold last_on, slice. rewrite !Nat.sub_0_r, !drop_0.
  destruct (e_channel !! n) as [x|] eqn:Hn.
  - rewrite (take_S_r _ _ x) by done.
    unfold eq_scalar, np_where. rewrite map_app, where_from_app. simpl.
    rewrite length_map, length_take_le by (apply lookup_lt_Some in Hn; lia).
    destruct (Z.eqb_spec x c) as [->|Hne].
    + rewrite decide_True by done. by rewrite last_snoc.
    + rewrite decide_False by congruence. by rewrite app_nil_r.
  - rewrite decide_False by done.
    apply lookup_ge_None in Hn. by rewrite !take_ge by lia.
Qed.

Lemma last_on_lt (e_channel : list Z) (c : Z) (n i : nat) :
  last_on e_channel c n = Some i → (i < n)%nat ∧ e_channel !! i = Some c.
Proof.
  induction n as [|n IH]; [done|]. rewrite last_on_S.
  case_decide; [intros [= <-]; split; [lia|done]|].
  intros [? ?]%IH. split; [lia|done].
Qed.

(** Events after [a] that are not on channel [c] do not move the last event
    on [c]. *)
Lemma last_on_skip (e_channel : list Z) (c : Z) (a b : nat) :
  (a ≤ b)%nat →
  (∀ i, (a ≤ i < b)%nat → e_channel !! i ≠ Some c) →
  last_on e_channel c b = last_on e_channel c a.
Proof.
  induction 1 as [|b Hle IH]; [done|]. intros Hno.
  rewrite last_on_S, decide_False by (apply Hno; lia).
  apply IH. intros i Hi. apply Hno. lia.
Qed.

(** ** One strobe: the register after the channel loop *)

Lemma channel_body_ok (e_channel e_state : list Z) (n ch : nat)
    (cur : list Z) (old : Z) :
  (length e_channel ≤ length e_state)%nat →
  cur !! (7 - ch)%nat = Some old →
  channel_body e_channel e_state 0 n ch cur =
    Ok (<[(7 - ch)%nat := sampled e_channel e_state n (Z.of_nat ch + 1) old]> cur).
Proof.
  intros Hlen Hold. unfold channel_body, sampled.
  fold (last_on e_channel (Z.of_nat ch + 1) n).
  assert (Hset : ∀ v, setitem cur (7 - ch) v = Ok (<[(7 - ch)%nat := v]> cur)).
  { intros v. unfold setitem. rewrite decide_True; [done|].
    by apply lookup_lt_Some in Hold. }
  destruct (last_on e_channel (Z.of_nat ch + 1) n) as [i|] eqn:Hlast.
  - apply last_on_lt in Hlast as [_ Hi%lookup_lt_Some].
    destruct (lookup_lt_is_Some_2 e_state i) as [v Hv]; [lia|].
    unfold state_at. rewrite Hv. simpl. apply Hset.
  - unfold getitem. rewrite Hold. simpl. apply Hset.
Qed.

Lemma channel_loop_ok (e_channel e_state : list Z) (n : nat) (r : list Z) :
  (length e_channel ≤ length e_state)%nat →
  length r = 8%nat →
  for_each (seq 0 7) (channel_body e_channel e_state 0 n) r =
    Ok (sample_register e_channel e_state n r).
Proof.
  intros Hlen Hr.
  do 9 (destruct r as [|? r]; try discriminate Hr). clear Hr.
  cbn [for_each seq].
  repeat (erewrite channel_body_ok by (done || reflexivity);
          cbn [mbind result_bind list_insert Nat.sub]).
  reflexivity.
Qed.

(** ** Reading the register as a word *)

Lemma join_cons (x : string) (xs : list string) :
  join (x :: xs) = (x ++ join xs)%string.
Proof.
  unfold join. destruct xs as [|y xs]; simpl; [|done].
  induction x as [|a x IH]; simpl; [done|]. by rewrite <- IH.
Qed.

Lemma digits_base2_bits (r : list Z) (acc : Z) :
  Forall is_bit r →
  digits_base2 (join (map str r)) acc = Ok (foldl (fun a b => 2 * a + b) acc r).
Proof.
  intros Hr. revert acc. induction Hr as [|b r [-> | ->] _ IH]; intros acc.
  - reflexivity.
  - rewrite fmap_cons, join_cons. simpl. rewrite IH. do 2 f_equal. lia.
  - rewrite fmap_cons, join_cons. simpl. by rewrite IH.
Qed.

Lemma word_of_register_ok (r : list Z) :
  r ≠ [] → Forall is_bit r → word_of_register r = Ok (word_value r).
Proof.
  intros Hne Hr. unfold word_of_register, word_value.
  rewrite <- (digits_base2_bits r 0 Hr).
  destruct Hr as [|b r [-> | ->] Hr]; [done| |]; by rewrite fmap_cons, join_cons.
Qed.

Lemma word_value_bounds (acc : Z) (r : list Z) :
  Forall is_bit r → 0 ≤ acc →
  2 ^ Z.of_nat (length r) * acc ≤ foldl (fun a b => 2 * a + b) acc r
    < 2 ^ Z.of_nat (length r) * (acc + 1).
Proof.
  intros Hr. revert acc. induction Hr as [|b r Hb _ IH]; intros acc Hacc.
  - simpl. lia.
  - cbn [foldl length]. rewrite Nat2Z.inj_succ, Z.pow_succ_r by lia.
    specialize (IH (2 * acc + b)). destruct Hb as [-> | ->]; nia.
Qed.

(** A register whose first position holds 0 reads as a 7-bit word. *)
Lemma word_value_7bit (r : list Z) :
  length r = 8%nat → Forall is_bit r → r !! 0%nat = Some 0 →
  0 ≤ word_value r ≤ 127.
Proof.
  intros Hlen Hr H0. destruct r as [|r0 r]; [done|].
  injection H0 as ->. apply Forall_cons in Hr as [_ Hr].
  unfold word_value. cbn [foldl].
  pose proof (word_value_bounds (2 * 0 + 0) r Hr ltac:(lia)) as Hb.
  simpl in Hlen. replace (length r) with 7%nat in Hb by lia.
  change (2 ^ Z.of_nat 7) with 128 in Hb. lia.
Qed.

(** ** The strobe loop *)

Lemma sampled_bit (e_channel e_state : list Z) (n : nat) (c old : Z) :
  Forall is_bit e_state → is_bit old → is_bit (sampled e_channel e_state n c old).
Proof.
  intros Hst Hold. unfold sampled.
  destruct (last_on e_channel c n) as [i|]; [|done].
  destruct (e_state !! i) as [v|] eqn:Hv; [|done].
  simpl. by eapply Forall_lookup_1 in Hst.
Qed.

Lemma length_sample_register (e_channel e_state : list Z) (n : nat) (r : list Z) :
  length (sample_register e_channel e_state n r) = length r.
Proof. apply length_imap. Qed.

Lemma sample_register_bits (e_channel e_state : list Z) (n : nat) (r : list Z) :
  Forall is_bit e_state → Forall is_bit r →
  Forall is_bit (sample_register e_channel e_state n r).
Proof.
  intros Hst Hr. apply Forall_lookup_2. intros p v.
  unfold sample_register. rewrite list_lookup_imap.
  destruct (r !! p) as [old|] eqn:Hp; [|done]. simpl. intros [= <-].
  eapply Forall_lookup_1 in Hr; [|done].
  case_decide; [done|]. by apply sampled_bit.
Qed.

Lemma sample_register_0 (e_channel e_state : list Z) (n : nat) (r : list Z) :
  sample_register e_channel e_state n r !! 0%nat = r !! 0%nat.
Proof. by destruct r. Qed.

Lemma length_registers (e_channel e_state : list Z) (r : list Z) (strobes : list nat) :
  length (registers e_channel e_state r strobes) = length strobes.
Proof. revert r. induction strobes as [|s rest IH]; intros r; simpl; [done|]. by rewrite IH. Qed.

Lemma strobe_body_ok (e_channel e_state : list Z) (n s : nat) (r fw : list Z) :
  (length e_channel ≤ length e_state)%nat →
  Forall is_bit e_state →
  length r = 8%nat → Forall is_bit r →
  (n < length fw)%nat →
  strobe_body e_channel e_state 0 (n, s) (r, fw) =
    let r' := sample_register e_channel e_state s r in
    Ok (r', <[n := word_value r']> fw).
Proof.
  intros Hlen Hst Hr Hbits Hn. unfold strobe_body.
  rewrite channel_loop_ok by done. cbn [mbind result_bind].
  set (r1 := sample_register e_channel e_state s r).
  assert (Hr1 : length r1 = 8%nat) by (unfold r1; by rewrite length_sample_register).
  rewrite word_of_register_ok; [|by destruct r1|by apply sample_register_bits].
  cbn [mbind result_bind]. unfold setitem. by rewrite decide_True by lia.
Qed.

Lemma strobe_loop_ok (e_channel e_state : list Z) (strobes : list nat)
    (n : nat) (r fw : list Z) :
  (length e_channel ≤ length e_state)%nat →
  Forall is_bit e_state →
  length r = 8%nat → Forall is_bit r →
  (n + length strobes ≤ length fw)%nat →
  ∃ r', for_each (zip (seq n (length strobes)) strobes)
          (strobe_body e_channel e_state 0) (r, fw) =
        Ok (r', take n fw ++ map word_value (registers e_channel e_state r strobes)
                  ++ drop (n + length strobes) fw).
Proof.
  intros Hlen Hst. revert n r fw.
  induction strobes as [|s rest IH]; intros n r fw Hr Hbits Hn.
  - exists r. simpl. by rewrite Nat.add_0_r, take_drop.
  - cbn [length] in Hn.
    change (zip (seq n (length (s :: rest))) (s :: rest))
      with ((n, s) :: zip (seq (S n) (length rest)) rest).
    change (for_each ((n, s) :: ?xs) ?body ?st)
      with (body (n, s) st ≫= for_each xs body).
    rewrite strobe_body_ok by (done || lia). cbn [mbind result_bind registers].
    set (r1 := sample_register e_channel e_state s r).
    destruct (IH (S n) r1 (<[n := word_value r1]> fw)) as [r' ->].
    { unfold r1. by rewrite length_sample_register. }
    { by apply sample_register_bits. }
    { rewrite length_insert. lia. }
    exists r'. do 2 f_equal.
    rewrite (take_S_r _ _ (word_value r1)) by (apply list_lookup_insert_eq; lia).
    rewrite take_insert_ge by lia. rewrite drop_insert_lt by lia.
    rewrite <- app_assoc. cbn [length fmap list_fmap app].
    by rewrite Nat.add_succ_r.
Qed.

(** On an event table with bit states the decoder returns, and its words are
    the values of the registers after each strobe. *)
Lemma reconstruct_ok (real_strobes : list nat) (e_channel e_state : list Z) :
  (length e_channel ≤ length e_state)%nat →
  Forall is_bit e_state →
  reconstruct_8bits_words real_strobes e_channel e_state =
    Ok (map word_value (registers e_channel e_state (replicate 8 0) real_strobes)).
Proof.
  intros Hlen Hst. unfold reconstruct_8bits_words, enumerate.
  destruct (strobe_loop_ok e_channel e_state real_strobes 0 (replicate 8 0)
              (replicate (length real_strobes) 0) Hlen Hst) as [r' ->].
  - done.
  - apply Forall_replicate. by left.
  - rewrite length_replicate. lia.
  - cbn [mbind result_bind snd].
    rewrite take_0, drop_ge, app_nil_r by (rewrite length_replicate; simpl; lia).
    done.
Qed.

(** ** The source against the specification's algorithm *)

Lemma last_on_None_le (e_channel : list Z) (c : Z) (a b : nat) :
  (a ≤ b)%nat → last_on e_channel c b = None → last_on e_channel c a = None.
Proof.
  induction 1 as [|b Hle IH]; [done|].
  rewrite last_on_S. case_decide; [done|]. apply IH.
Qed.

(** The value held from an earlier scan is the one a scan from the start of
    the stream finds again. *)
Lemma sampled_held (e_channel e_state : list Z) (c : Z) (a b : nat) :
  (length e_channel ≤ length e_state)%nat → (a ≤ b)%nat →
  sampled e_channel e_state b c (sampled e_channel e_state a c 0) =
  sampled e_channel e_state b c 0.
Proof.
  intros Hlen Hab. unfold sampled at 1 3.
  destruct (last_on e_channel c b) as [i|] eqn:Hb.
  - apply last_on_lt in Hb as [_ Hi%lookup_lt_Some].
    destruct (lookup_lt_is_Some_2 e_state i) as [v ->]; [lia|done].
  - unfold sampled. by rewrite (last_on_None_le _ _ a b).
Qed.

Lemma sampled_S (e_channel e_state : list Z) (c old : Z) (n : nat) :
  sampled e_channel e_state (S n) c old =
    if decide (e_channel !! n = Some c) then default old (e_state !! n)
    else sampled e_channel e_state n c old.
Proof. unfold sampled. rewrite last_on_S. by case_decide. Qed.

Lemma transition_at_stream (e_channel e_state : list Z) (c : Z) (n : nat) :
  length e_channel = length e_state →
  Spec.transition_at (Spec.stream e_channel e_state) c n =
    if decide (e_channel !! n = Some c) then e_state !! n else None.
Proof.
  intros Hlen. unfold Spec.transition_at, Spec.stream.
  rewrite lookup_zip_with.
  destruct (e_channel !! n) as [x|] eqn:Hx; simpl.
  - destruct (lookup_lt_is_Some_2 e_state n) as [v ->].
    { apply lookup_lt_Some in Hx. lia. }
    simpl. destruct (Z.eqb_spec x c) as [->|Hne].
    + by rewrite decide_True.
    + rewrite decide_False; [done|congruence].
  - done.
Qed.

(** A scan that starts at [lo] and finds nothing falls back on the value of
    the scan of the first [lo] events. *)
Lemma scan_from (e_channel e_state : list Z) (c : Z) (lo s : nat) :
  length e_channel = length e_state → (lo ≤ s)%nat →
  default (sampled e_channel e_state lo c 0)
    (last (omap (Spec.transition_at (Spec.stream e_channel e_state) c)
             (seq lo (s - lo)))) =
  sampled e_channel e_state s c 0.
Proof.
  intros Hlen. induction 1 as [|s Hle IH].
  - by rewrite Nat.sub_diag.
  - rewrite Nat.sub_succ_l, seq_S, omap_app, last_app by done.
    replace (lo + (s - lo))%nat with s by lia. cbn [omap list_omap].
    rewrite transition_at_stream, sampled_S by done.
    case_decide as Hc; [|done].
    destruct (lookup_lt_is_Some_2 e_state s) as [v ->]; [|done].
    apply lookup_lt_Some in Hc. lia.
Qed.

Lemma spec_scan (e_channel e_state : list Z) (c : Z) (prev : option nat) (s : nat) :
  length e_channel = length e_state →
  (default 0%nat prev ≤ s)%nat →
  (∀ p, prev = Some p → e_channel !! p ≠ Some c) →
  default (sampled e_channel e_state (default 0%nat prev) c 0)
    (last (Spec.transitions (Spec.stream e_channel e_state) prev s c)) =
  sampled e_channel e_state s c 0.
Proof.
  intros Hlen Hle Hp. unfold Spec.transitions, Spec.window.
  destruct prev as [p|]; simpl in *.
  - destruct (decide (s = p)) as [->|Hne].
    + by replace (p - S p)%nat with 0%nat by lia.
    + rewrite <- (scan_from e_channel e_state c (S p) s) by (done || lia).
      by rewrite sampled_S, decide_False by by apply Hp.
  - rewrite <- (scan_from e_channel e_state c 0 s) by (done || lia).
    by rewrite Nat.sub_0_r.
Qed.

(** The specification's step, position by position. *)
Lemma spec_step_imap (events : list (Z * Z)) (prev : option nat) (s : nat)
    (r : list Z) :
  length r = 8%nat →
  Spec.step events prev s r =
    imap (fun p old =>
            if decide (p = 0%nat) then old
            else default old
                   (last (Spec.transitions events prev s (8 - Z.of_nat p)))) r.
Proof.
  intros Hr. do 9 (destruct r as [|? r]; try discriminate Hr). clear Hr.
  unfold Spec.step. cbn [foldl seq]. unfold Spec.update_line.
  cbn -[Spec.transitions].
  change (Z.of_nat 1) with 1; change (Z.of_nat 2) with 2;
  change (Z.of_nat 3) with 3; change (Z.of_nat 4) with 4;
  change (Z.of_nat 5) with 5; change (Z.of_nat 6) with 6;
  change (Z.of_nat 7) with 7; change (Z.of_nat 0) with 0.
  change (8 - 1) with 7; change (8 - 2) with 6; change (8 - 3) with 5;
  change (8 - 4) with 4; change (8 - 5) with 3; change (8 - 6) with 2;
  change (8 - 7) with 1.
  repeat match goal with
         | |- context [last (Spec.transitions events prev s ?c)] =>
             destruct (last (Spec.transitions events prev s c))
         end; reflexivity.
Qed.

Lemma step_refines (e_channel e_state : list Z) (prev : option nat) (s : nat)
    (r : list Z) :
  length e_channel = length e_state →
  length r = 8%nat →
  holds_scan e_channel e_state (default 0%nat prev) r →
  (∀ p, prev = Some p → e_channel !! p = Some 8) →
  (default 0%nat prev ≤ s)%nat →
  Spec.step (Spec.stream e_channel e_state) prev s r =
    sample_register e_channel e_state s r
  ∧ holds_scan e_channel e_state s (sample_register e_channel e_state s r).
Proof.
  intros Hlen Hr Hinv Hprev Hle.
  assert (Hnew : ∀ p old, r !! p = Some old → p ≠ 0%nat →
            default old (last (Spec.transitions (Spec.stream e_channel e_state)
                                 prev s (8 - Z.of_nat p))) =
              sampled e_channel e_state s (8 - Z.of_nat p) 0
            ∧ sampled e_channel e_state s (8 - Z.of_nat p) old =
              sampled e_channel e_state s (8 - Z.of_nat p) 0).
  { intros p old Hp Hp0. rewrite (Hinv p old Hp Hp0). split.
    - apply spec_scan; [done|done|].
      intros q Hq. rewrite (Hprev q Hq). intros [= Heq]. lia.
    - apply sampled_held; [lia|done]. }
  split.
  - rewrite spec_step_imap by done. unfold sample_register.
    apply imap_ext. intros p old Hp. case_decide; [done|].
    destruct (Hnew p old Hp) as [-> ->]; done.
  - intros p v. unfold sample_register. rewrite list_lookup_imap.
    destruct (r !! p) as [old|] eqn:Hp; [|done]. simpl.
    intros [= <-] Hp0. rewrite decide_False by done.
    by destruct (Hnew p old Hp Hp0) as [_ ->].
Qed.

Lemma run_refines (e_channel e_state : list Z) (strobes : list nat)
    (prev : option nat) (r : list Z) :
  length e_channel = length e_state →
  length r = 8%nat →
  holds_scan e_channel e_state (default 0%nat prev) r →
  (∀ p, prev = Some p → e_channel !! p = Some 8) →
  Forall (fun s => e_channel !! s = Some 8) strobes →
  StronglySorted le (default 0%nat prev :: strobes) →
  Spec.run (Spec.stream e_channel e_state) prev r strobes =
    map word_value (registers e_channel e_state r strobes).
Proof.
  intros Hlen. revert prev r.
  induction strobes as [|s rest IH]; intros prev r Hr Hinv Hprev Hst Hsorted;
    [done|].
  apply Forall_cons in Hst as [Hs Hst].
  apply StronglySorted_inv in Hsorted as [Hsorted Hle].
  apply Forall_cons in Hle as [Hle _].
  destruct (step_refines e_channel e_state prev s r) as [Hstep Hinv']; try done.
  cbn [Spec.run registers]. rewrite Hstep, fmap_cons.
  f_equal. apply IH; try done.
  - by rewrite length_sample_register.
  - by intros p [= <-].
Qed.

(** ** Registers along the strobe sequence *)

Lemma bit_register_zeros : bit_register (replicate 8 0).
Proof. split; [done|]. split; [|done]. apply Forall_replicate. by left. Qed.

Lemma bit_register_sample (e_channel e_state : list Z) (s : nat) (r : list Z) :
  Forall is_bit e_state → bit_register r →
  bit_register (sample_register e_channel e_state s r).
Proof.
  intros Hst (Hlen & Hbits & H0). split; [by rewrite length_sample_register|].
  split; [by apply sample_register_bits|by rewrite sample_register_0].
Qed.

Lemma registers_bit (e_channel e_state : list Z) (strobes : list nat) (r : list Z) :
  Forall is_bit e_state → bit_register r →
  Forall bit_register (registers e_channel e_state r strobes).
Proof.
  intros Hst. revert r. induction strobes as [|s rest IH]; intros r Hr; simpl.
  - constructor.
  - constructor; [|apply IH]; by apply bit_register_sample.
Qed.

(** The register after strobe [k] is a sample at that strobe; the register
    after the next strobe is a sample of it. *)
Lemma registers_lookup (e_channel e_state : list Z) (strobes : list nat)
    (r : list Z) (k a : nat) :
  strobes !! k = Some a →
  ∃ r0, length r0 = length r
        ∧ registers e_channel e_state r strobes !! k =
            Some (sample_register e_channel e_state a r0).
Proof.
  revert r k. induction strobes as [|s rest IH]; intros r k Hk; [done|].
  destruct k as [|k]; simpl in *.
  - injection Hk as ->. by exists r.
  - destruct (IH (sample_register e_channel e_state s r) k Hk) as (r0 & Hlen & Hr0).
    exists r0. by rewrite Hlen, length_sample_register.
Qed.

Lemma registers_lookup_S (e_channel e_state : list Z) (strobes : list nat)
    (r rk : list Z) (k b : nat) :
  registers e_channel e_state r strobes !! k = Some rk →
  strobes !! S k = Some b →
  registers e_channel e_state r strobes !! S k =
    Some (sample_register e_channel e_state b rk).
Proof.
  revert r k. induction strobes as [|s rest IH]; intros r k Hk Hb; [done|].
  destruct k as [|k]; simpl in *.
  - injection Hk as <-. destruct rest as [|s' rest]; [done|].
    simpl in *. by injection Hb as ->.
  - by apply IH.
Qed.

(** Sample-and-hold at the level of registers. *)
Lemma sample_register_hold (e_channel e_state : list Z) (a b : nat) (r : list Z) :
  length r = 8%nat → (a ≤ b)%nat →
  (∀ i c, (a ≤ i < b)%nat → e_channel !! i = Some c → ¬ (1 ≤ c ≤ 7)) →
  sample_register e_channel e_state b (sample_register e_channel e_state a r) =
  sample_register e_channel e_state a r.
Proof.
  intros Hr Hab Hno. apply list_eq. intros p. unfold sample_register.
  rewrite !list_lookup_imap. destruct (r !! p) as [old|] eqn:Hp; [|done].
  simpl. f_equal. case_decide as Hp0; [done|].
  apply lookup_lt_Some in Hp. unfold sampled.
  rewrite (last_on_skip e_channel _ a b Hab).
  - destruct (last_on e_channel (8 - Z.of_nat p) a) as [i|]; [|done].
    by destruct (e_state !! i).
  - intros i Hi Hc. apply (Hno i _ Hi Hc). lia.
Qed.

(** ** A stream with a single data-line event *)

Lemma sample_register_single (e_channel e_state : list Z) (i s : nat) (x : Z) :
  e_channel !! i = Some 1 → e_state !! i = Some 1 →
  (∀ j c, j ≠ i → e_channel !! j = Some c → ¬ (1 ≤ c ≤ 7)) →
  (i < s)%nat →
  sample_register e_channel e_state s [0; 0; 0; 0; 0; 0; 0; x] =
    [0; 0; 0; 0; 0; 0; 0; 1].
Proof.
  intros Hc Hs Hno His.
  assert (Hone : sampled e_channel e_state s 1 x = 1).
  { unfold sampled. rewrite (last_on_skip e_channel 1 (S i) s).
    - by rewrite last_on_S, decide_True, Hs by done.
    - lia.
    - intros j Hj Hj1. apply (Hno j 1); [lia|done|lia]. }
  assert (Hother : ∀ c, 2 ≤ c ≤ 7 → sampled e_channel e_state s c 0 = 0).
  { intros c Hc27. unfold sampled.
    rewrite (last_on_skip e_channel c 0 s), last_on_0; [done|lia|].
    intros j _ Hj. destruct (decide (j = i)) as [->|Hne].
    - rewrite Hc in Hj. injection Hj as <-. lia.
    - apply (Hno j c Hne Hj). lia. }
  change (sample_register e_channel e_state s [0; 0; 0; 0; 0; 0; 0; x]) with
    [0; sampled e_channel e_state s 7 0; sampled e_channel e_state s 6 0;
     sampled e_channel e_state s 5 0; sampled e_channel e_state s 4 0;
     sampled e_channel e_state s 3 0; sampled e_channel e_state s 2 0;
     sampled e_channel e_state s 1 x].
  rewrite Hone, !Hother by lia. reflexivity.
Qed.

Lemma registers_single (e_channel e_state : list Z) (i : nat) (strobes : list nat)
    (x : Z) :
  e_channel !! i = Some 1 → e_state !! i = Some 1 →
  (∀ j c, j ≠ i → e_channel !! j = Some c → ¬ (1 ≤ c ≤ 7)) →
  Forall (fun s => (i < s)%nat) strobes →
  map word_value (registers e_channel e_state [0; 0; 0; 0; 0; 0; 0; x] strobes) =
    replicate (length strobes) 1.
Proof.
  intros Hc Hs Hno Hst. revert x.
  induction Hst as [|s rest His _ IH]; intros x; [done|].
  cbn [registers]. rewrite (sample_register_single _ _ i) by done.
  rewrite fmap_cons, IH. reflexivity.
Qed.

(** ** Position 0 of the register *)

Lemma channel_body_0 (e_channel e_state : list Z) (idx_old idx_strobe ch : nat)
    (r r' : list Z) :
  (ch < 7)%nat →
  channel_body e_channel e_state idx_old idx_strobe ch r = Ok r' →
  r' !! 0%nat = r !! 0%nat.
Proof.
  intros Hch. unfold channel_body, setitem.
  destruct (match last _ with Some i => _ | None => _ end) as [v|e]; [|done].
  simpl. case_decide; [|done]. intros [= <-].
  apply list_lookup_insert_ne. lia.
Qed.

Lemma channel_loop_0 (e_channel e_state : list Z) (idx_old idx_strobe : nat)
    (chs : list nat) (r r' : list Z) :
  Forall (fun ch => (ch < 7)%nat) chs →
  for_each chs (channel_body e_channel e_state idx_old idx_strobe) r = Ok r' →
  r' !! 0%nat = r !! 0%nat.
Proof.
  intros Hchs. revert r. induction Hchs as [|ch chs Hch _ IH]; intros r; simpl.
  - by intros [= <-].
  - destruct (channel_body _ _ _ _ ch r) as [r1|e] eqn:Hbody; [|done].
    simpl. intros Hrest%IH. rewrite Hrest. by eapply channel_body_0.
Qed.

Lemma word_value_testbit (r : list Z) (p : nat) (v : Z) :
  length r = 8%nat → Forall is_bit r → r !! p = Some v →
  Z.testbit (word_value r) (Z.of_nat (7 - p)) = (v =? 1).
Proof.
  intros Hr Hbits Hp.
  do 9 (destruct r as [|? r]; try discriminate Hr). clear Hr.
  repeat match goal with
         | H : Forall is_bit (_ :: _) |- _ => apply Forall_cons in H as [[-> | ->] H]
         end;
    do 8 (destruct p as [|p]; [injection Hp as <-; reflexivity|]); done.
Qed.

Lemma holds_scan_zeros (e_channel e_state : list Z) :
  holds_scan e_channel e_state 0 (replicate 8 0).
Proof.
  intros p old [-> _]%lookup_replicate _. unfold sampled. by rewrite last_on_0.
Qed.

(** * The decoder: claims *)

(** C1. On an event table (two columns of one length, bit states) and an
    ordered sequence of strobe positions, each on the strobe line 8,
    [reconstruct_8bits_words] returns one word per strobe, and the words are
    those of the specification's algorithm: a register of 8 zeros, each data
    line 1..7 setting bit [7 - (ch - 1)] to the state of its last transition
    between the previous strobe and the current one, both excluded (from the
    start of the stream for the first strobe), the bit being left as it is
    without such a transition, and the register read most significant bit
    first. *)
Theorem reconstruct_refines_spec (real_strobes : list nat)
    (e_channel e_state : list Z) :
  length e_channel = length e_state →
  Forall is_bit e_state →
  StronglySorted le real_strobes →
  Forall (fun s => e_channel !! s = Some 8) real_strobes →
  ∃ full_word,
    reconstruct_8bits_words real_strobes e_channel e_state = Ok full_word
    ∧ length full_word = length real_strobes
    ∧ full_word = Spec.decode real_strobes e_channel e_state.
Proof.
  intros Hlen Hbits Hsorted Hst. eexists. split; [|split].
  - apply reconstruct_ok; [lia|done].
  - by rewrite length_map, length_registers.
  - unfold Spec.decode. symmetry. apply run_refines; try done.
    + apply holds_scan_zeros.
    + constructor; [done|]. apply Forall_forall. intros; simpl; lia.
Qed.

Lemma reconstruct_refines_spec_witness :
  ∃ full_word,
    reconstruct_8bits_words [2; 5]%nat [1; 2; 8; 1; 3; 8] [1; 1; 1; 0; 1; 1]
      = Ok full_word
    ∧ length full_word = 2%nat
    ∧ full_word = Spec.decode [2; 5]%nat [1; 2; 8; 1; 3; 8] [1; 1; 1; 0; 1; 1].
Proof.
  apply (reconstruct_refines_spec [2; 5]%nat [1; 2; 8; 1; 3; 8] [1; 1; 1; 0; 1; 1]).
  - reflexivity.
  - solve_bits.
  - repeat constructor; lia.
  - repeat constructor.
Defined.

(** C2. Sample-and-hold: on an event table with bit states, if [a] and [b]
    are consecutive strobe positions, [a] before [b] and on the strobe line,
    and no event on a data line 1..7 lies strictly between them, the word
    decoded for [b] is the word decoded for [a]. *)
Theorem sample_and_hold (real_strobes : list nat) (e_channel e_state : list Z)
    (k a b : nat) :
  length e_channel = length e_state →
  Forall is_bit e_state →
  real_strobes !! k = Some a →
  real_strobes !! S k = Some b →
  (a ≤ b)%nat →
  e_channel !! a = Some 8 →
  (∀ i c, (a < i < b)%nat → e_channel !! i = Some c → ¬ (1 ≤ c ≤ 7)) →
  ∃ full_word w,
    reconstruct_8bits_words real_strobes e_channel e_state = Ok full_word
    ∧ full_word !! k = Some w
    ∧ full_word !! S k = Some w.
Proof.
  intros Hlen Hbits Hka Hkb Hab Ha Hno.
  destruct (registers_lookup e_channel e_state real_strobes (replicate 8 0) k a Hka)
    as (r0 & Hr0 & Hk).
  pose proof (registers_lookup_S _ _ _ _ _ _ _ Hk Hkb) as HSk.
  rewrite sample_register_hold in HSk; [|done|done|].
  - eexists _, _. split; [apply reconstruct_ok; [lia|done]|].
    rewrite !list_lookup_fmap, Hk, HSk. done.
  - intros i c Hi Hc. destruct (decide (i = a)) as [->|Hne].
    + rewrite Ha in Hc. injection Hc as <-. lia.
    + apply (Hno i c); [lia|done].
Qed.

Lemma sample_and_hold_witness :
  ∃ full_word w,
    reconstruct_8bits_words [2; 4]%nat [1; 2; 8; 9; 8; 3] [1; 1; 1; 0; 1; 1]
      = Ok full_word
    ∧ full_word !! 0%nat = Some w
    ∧ full_word !! 1%nat = Some w.
Proof.
  apply (sample_and_hold [2; 4]%nat [1; 2; 8; 9; 8; 3] [1; 1; 1; 0; 1; 1] 0 2 4).
  - reflexivity.
  - solve_bits.
  - reflexivity.
  - reflexivity.
  - lia.
  - reflexivity.
  - intros i c Hi. assert (i = 3%nat) as -> by lia. simpl. intros [= <-]. lia.
Defined.

Lemma sample_register_testbit (e_channel e_state : list Z) (s : nat)
    (r : list Z) (ch : nat) :
  length e_channel = length e_state →
  Forall is_bit e_state → bit_register r → (1 ≤ ch ≤ 7)%nat →
  Z.testbit (word_value (sample_register e_channel e_state s r))
    (Z.of_nat (ch - 1)) =
    match last_on e_channel (Z.of_nat ch) s with
    | Some i => bool_decide (e_state !! i = Some 1)
    | None => Z.testbit (word_value r) (Z.of_nat (ch - 1))
    end.
Proof.
  intros Hlen Hbits (Hr & Hrb & _) Hch.
  set (p := (8 - ch)%nat).
  destruct (lookup_lt_is_Some_2 r p) as [old Hold]; [lia|].
  assert (Hv : sample_register e_channel e_state s r !! p =
               Some (sampled e_channel e_state s (Z.of_nat ch) old)).
  { unfold sample_register. rewrite list_lookup_imap, Hold. simpl.
    rewrite decide_False by lia. do 2 f_equal. lia. }
  replace (ch - 1)%nat with (7 - p)%nat by lia.
  rewrite (word_value_testbit _ p _ (eq_trans (length_sample_register _ _ _ _) Hr)
             (sample_register_bits _ _ _ _ Hbits Hrb) Hv).
  unfold sampled.
  destruct (last_on e_channel (Z.of_nat ch) s) as [i|] eqn:Hlast.
  - apply last_on_lt in Hlast as [_ Hi%lookup_lt_Some].
    destruct (lookup_lt_is_Some_2 e_state i) as [x Hx]; [lia|].
    rewrite Hx. simpl. destruct (Z.eqb_spec x 1) as [->|Hne].
    + by rewrite bool_decide_eq_true_2.
    + rewrite bool_decide_eq_false_2; [done|]. by intros [= ->].
  - symmetry. by apply word_value_testbit.
Qed.

(** C5. For every data line [ch] in 1..7 the channel loop of a strobe puts
    the state of the last event of [ch] before the strobe at register
    position [7 - (ch - 1)] (and leaves that position as it was without such
    an event), and that position is bit [ch - 1] of the decoded word. So in
    the words that [reconstruct_8bits_words] returns, bit [ch - 1] of the
    word of a strobe tells whether the last event of [ch] before the strobe
    has state 1, and without such an event it is that bit of the previous
    word, 0 for the first strobe. In particular, in a stream whose only
    data-line event is one on channel 1 with state 1, every strobe after
    that event decodes to the word 1. *)
Theorem channel_bit_position :
  (∀ (e_channel e_state : list Z) (idx_strobe : nat) (current_8code : list Z)
     (ch : nat),
     length e_channel = length e_state →
     Forall is_bit e_state →
     length current_8code = 8%nat →
     Forall is_bit current_8code →
     (1 ≤ ch ≤ 7)%nat →
     ∃ r' w v,
       for_each (seq 0 7) (channel_body e_channel e_state 0 idx_strobe)
         current_8code = Ok r'
       ∧ word_of_register r' = Ok w
       ∧ r' !! (7 - (ch - 1))%nat = Some v
       ∧ Some v = match last_on e_channel (Z.of_nat ch) idx_strobe with
                  | Some i => e_state !! i
                  | None => current_8code !! (7 - (ch - 1))%nat
                  end
       ∧ Z.testbit w (Z.of_nat (ch - 1)) = (v =? 1))
  ∧ (∀ (real_strobes : list nat) (e_channel e_state : list Z),
       length e_channel = length e_state →
       Forall is_bit e_state →
       ∃ full_word,
         reconstruct_8bits_words real_strobes e_channel e_state = Ok full_word
         ∧ ∀ (k s : nat) (w : Z) (ch : nat),
             real_strobes !! k = Some s →
             full_word !! k = Some w →
             (1 ≤ ch ≤ 7)%nat →
             Z.testbit w (Z.of_nat (ch - 1)) =
               match last_on e_channel (Z.of_nat ch) s with
               | Some i => bool_decide (e_state !! i = Some 1)
               | None =>
                   match k with
                   | O => false
                   | S k' =>
                       from_option
                         (fun w' => Z.testbit w' (Z.of_nat (ch - 1))) false
                         (full_word !! k')
                   end
               end)
  ∧ (∀ (e_channel e_state : list Z) (i : nat) (real_strobes : list nat),
       length e_channel = length e_state →
       Forall is_bit e_state →
       e_channel !! i = Some 1 →
       e_state !! i = Some 1 →
       (∀ j c, j ≠ i → e_channel !! j = Some c → ¬ (1 ≤ c ≤ 7)) →
       Forall (fun s => (i < s)%nat) real_strobes →
       reconstruct_8bits_words real_strobes e_channel e_state =
         Ok (replicate (length real_strobes) 1)).
Proof.
  split; [|split].
  - intros e_channel e_state s r ch Hlen Hbits Hr Hrb Hch.
    set (p := (7 - (ch - 1))%nat).
    destruct (lookup_lt_is_Some_2 r p) as [old Hold]; [lia|].
    set (r' := sample_register e_channel e_state s r).
    assert (Hv : r' !! p = Some (sampled e_channel e_state s (Z.of_nat ch) old)).
    { unfold r', sample_register. rewrite list_lookup_imap, Hold. simpl.
      rewrite decide_False by lia. do 2 f_equal. lia. }
    exists r', (word_value r'), (sampled e_channel e_state s (Z.of_nat ch) old).
    split; [apply channel_loop_ok; [lia|done]|].
    split.
    { apply word_of_register_ok; [|by apply sample_register_bits].
      intros Hnil. by rewrite Hnil in Hv. }
    split; [done|]. split.
    + unfold sampled.
      destruct (last_on e_channel (Z.of_nat ch) s) as [i|] eqn:Hlast; [|done].
      apply last_on_lt in Hlast as [_ Hi%lookup_lt_Some].
      destruct (lookup_lt_is_Some_2 e_state i) as [x ->]; [lia|done].
    + rewrite <- (word_value_testbit r' p); [f_equal; lia| | |done].
      * unfold r'. by rewrite length_sample_register.
      * by apply sample_register_bits.
  - intros strobes e_channel e_state Hlen Hbits. eexists.
    split; [apply reconstruct_ok; [lia|done]|].
    set (regs := registers e_channel e_state (replicate 8 0) strobes).
    assert (Hregs : ∀ j rj, regs !! j = Some rj → bit_register rj).
    { intros j rj Hj. eapply Forall_lookup_1; [|exact Hj].
      apply registers_bit; [done|apply bit_register_zeros]. }
    intros k s w ch Hk Hw Hch. rewrite list_lookup_fmap in Hw.
    destruct (regs !! k) as [rk|] eqn:Hrk; [|done]. injection Hw as <-.
    destruct k as [|k'].
    + destruct strobes as [|s0 rest]; [done|]. injection Hk as ->.
      injection Hrk as <-.
      rewrite sample_register_testbit by (done || apply bit_register_zeros).
      destruct (last_on e_channel (Z.of_nat ch) s); [done|].
      change (word_value _) with 0. apply Z.bits_0.
    + destruct (lookup_lt_is_Some_2 regs k') as [rk' Hrk'].
      { unfold regs. rewrite length_registers.
        apply lookup_lt_Some in Hk. lia. }
      unfold regs in Hrk. rewrite (registers_lookup_S _ _ _ _ rk' _ s Hrk' Hk) in Hrk.
      injection Hrk as <-.
      rewrite sample_register_testbit by (done || by eapply Hregs).
      rewrite list_lookup_fmap. fold regs. by rewrite Hrk'.
  - intros e_channel e_state i strobes Hlen Hbits Hc Hs Hno Hst.
    rewrite reconstruct_ok by (lia || done). f_equal.
    by apply (registers_single e_channel e_state i strobes 0).
Qed.

Lemma channel_bit_position_witness :
  (∃ r' w v,
     for_each (seq 0 7) (channel_body [3; 1; 8] [1; 1; 1] 0 2) (replicate 8 0)
       = Ok r'
     ∧ word_of_register r' = Ok w
     ∧ r' !! (7 - (3 - 1))%nat = Some v
     ∧ Some v = match last_on [3; 1; 8] (Z.of_nat 3) 2 with
                | Some i => [1; 1; 1] !! i
                | None => replicate 8 0 !! (7 - (3 - 1))%nat
                end
     ∧ Z.testbit w (Z.of_nat (3 - 1)) = (v =? 1))
  ∧ (∃ full_word,
       reconstruct_8bits_words [2; 5]%nat [1; 2; 8; 1; 3; 8] [1; 1; 1; 0; 1; 1]
         = Ok full_word
       ∧ ∀ (k s : nat) (w : Z) (ch : nat),
           [2; 5]%nat !! k = Some s →
           full_word !! k = Some w →
           (1 ≤ ch ≤ 7)%nat →
           Z.testbit w (Z.of_nat (ch - 1)) =
             match last_on [1; 2; 8; 1; 3; 8] (Z.of_nat ch) s with
             | Some i => bool_decide ([1; 1; 1; 0; 1; 1] !! i = Some 1)
             | None =>
                 match k with
                 | O => false
                 | S k' =>
                     from_option
                       (fun w' => Z.testbit w' (Z.of_nat (ch - 1))) false
                       (full_word !! k')
                 end
             end)
  ∧ reconstruct_8bits_words [1; 3]%nat [1; 8; 9; 8] [1; 1; 1; 1] =
      Ok (replicate (length [1; 3]%nat) 1).
Proof.
  split; [|split].
  - apply (proj1 channel_bit_position [3; 1; 8] [1; 1; 1] 2%nat (replicate 8 0) 3%nat).
    + reflexivity.
    + solve_bits.
    + reflexivity.
    + solve_bits.
    + lia.
  - apply (proj1 (proj2 channel_bit_position) [2; 5]%nat [1; 2; 8; 1; 3; 8]
             [1; 1; 1; 0; 1; 1]).
    + reflexivity.
    + solve_bits.
  - apply (proj2 (proj2 channel_bit_position) [1; 8; 9; 8] [1; 1; 1; 1] 0%nat
             [1; 3]%nat).
    + reflexivity.
    + solve_bits.
    + reflexivity.
    + reflexivity.
    + intros j c Hj.
      destruct j as [|[|[|[|j]]]]; simpl; try done; intros [= <-]; lia.
    + repeat constructor; lia.
Defined.

(** ** Only the events before a strobe are read *)

Lemma where_from_lt (k i : nat) (mask : list bool) :
  i ∈ where_from k mask → (i < k + length mask)%nat.
Proof. intros Hi. apply where_from_bounds in Hi. lia. Qed.

Lemma channel_body_prefix (e_channel e_state e_channel' e_state' : list Z)
    (s ch : nat) (r : list Z) :
  take s e_channel = take s e_channel' →
  take s e_state = take s e_state' →
  channel_body e_channel e_state 0 s ch r =
  channel_body e_channel' e_state' 0 s ch r.
Proof.
  intros Hc Hs. unfold channel_body, slice.
  rewrite !Nat.sub_0_r, !drop_0, <- Hc.
  destruct (last (np_where (eq_scalar (take s e_channel) (Z.of_nat ch + 1))))
    as [i|] eqn:Hlast; [|done].
  assert (Hi : (i < s)%nat).
  { apply last_Some_elem_of, where_from_lt in Hlast.
    unfold eq_scalar in Hlast. rewrite length_map, length_take in Hlast. lia. }
  unfold state_at.
  by rewrite <- (lookup_take_lt e_state s i), Hs, lookup_take_lt by done.
Qed.

Lemma for_each_ext {A S : Type} (xs : list A) (f g : A → S → result S) (s : S) :
  (∀ x s', x ∈ xs → f x s' = g x s') → for_each xs f s = for_each xs g s.
Proof.
  revert s. induction xs as [|x xs IH]; intros s Hfg; [done|]. simpl.
  rewrite (Hfg x s) by left. destruct (g x s) as [s'|e]; [|done]. simpl.
  apply IH. intros y s'' Hy. apply Hfg. by right.
Qed.

Lemma take_prefix_eq {A : Type} (a b : list A) (s n : nat) :
  (s ≤ n)%nat → take n a = take n b → take s a = take s b.
Proof.
  intros Hsn Hab. rewrite <- (Nat.min_l s n) by done.
  by rewrite <- !take_take, Hab.
Qed.

Lemma strobe_body_prefix (e_channel e_state e_channel' e_state' : list Z)
    (n k s : nat) (st : list Z * list Z) :
  (s ≤ n)%nat →
  take n e_channel = take n e_channel' →
  take n e_state = take n e_state' →
  strobe_body e_channel e_state 0 (k, s) st =
  strobe_body e_channel' e_state' 0 (k, s) st.
Proof.
  intros Hsn Hc Hs. destruct st as [r fw]. unfold strobe_body.
  rewrite (for_each_ext _ _ (channel_body e_channel' e_state' 0 s)); [done|].
  intros ch r' _. apply channel_body_prefix; by apply (take_prefix_eq _ _ s n).
Qed.

(** C6. In the stream [(8,1,5); (1,1,5); (8,1,15); (2,1,12)] the strobes are
    the events at positions 0 and 2, and the decoded words are 0 and 1: the
    channel-1 event stands at position 1, not before the first strobe. The
    scan for a strobe stops before the strobe's own position: whatever
    event stands at a position [s], the call gives the same result for
    strobes at positions up to [s]. *)
Theorem first_word_excludes_strobe :
  let events :=
    [ {| channel := 8; state := 1; timestamp := 5 |};
      {| channel := 1; state := 1; timestamp := 5 |};
      {| channel := 8; state := 1; timestamp := 15 |};
      {| channel := 2; state := 1; timestamp := 12 |} ] in
  np_where (strobe_mask events) = [0; 2]%nat
  ∧ reconstruct_8bits_words (np_where (strobe_mask events))
      (map channel events) (map state events) = Ok [0; 1]
  ∧ ∀ (real_strobes : list nat) (e_channel e_state : list Z) (s : nat)
      (c v : Z),
      Forall (fun s' => (s' ≤ s)%nat) real_strobes →
      reconstruct_8bits_words real_strobes (<[s := c]> e_channel)
        (<[s := v]> e_state) =
      reconstruct_8bits_words real_strobes e_channel e_state.
Proof.
  split; [reflexivity|]. split; [vm_compute; reflexivity|].
  intros strobes e_channel e_state s c v Hs. unfold reconstruct_8bits_words.
  rewrite (for_each_ext _ _ (strobe_body e_channel e_state 0)); [done|].
  intros [k s'] st Hks. apply (strobe_body_prefix _ _ _ _ s).
  - unfold enumerate in Hks. apply elem_of_zip_r in Hks.
    by eapply Forall_forall in Hs.
  - by rewrite take_insert_ge.
  - by rewrite take_insert_ge.
Qed.

Lemma first_word_excludes_strobe_witness :
  reconstruct_8bits_words [0; 2]%nat (<[2%nat := 1]> [8; 2; 8; 9])
    (<[2%nat := 0]> [1; 1; 1; 1]) =
  reconstruct_8bits_words [0; 2]%nat [8; 2; 8; 9] [1; 1; 1; 1].
Proof.
  apply (proj2 (proj2 first_word_excludes_strobe) [0; 2]%nat [8; 2; 8; 9]
           [1; 1; 1; 1] 2%nat 1 0).
  repeat constructor; lia.
Defined.

(** C9. Position 0 of the register is never written by the channel loop,
    and on an event table with bit states every decoded word is in 0..127. *)
Theorem words_are_7bit :
  (∀ (e_channel e_state : list Z) (idx_old idx_strobe : nat) (r r' : list Z),
     for_each (seq 0 7) (channel_body e_channel e_state idx_old idx_strobe) r
       = Ok r' →
     r' !! 0%nat = r !! 0%nat)
  ∧ (∀ (real_strobes : list nat) (e_channel e_state : list Z),
       length e_channel = length e_state →
       Forall is_bit e_state →
       ∃ full_word,
         reconstruct_8bits_words real_strobes e_channel e_state = Ok full_word
         ∧ Forall (fun w => 0 ≤ w ≤ 127) full_word).
Proof.
  split.
  - intros e_channel e_state idx_old idx_strobe r r'.
    apply channel_loop_0. repeat constructor.
  - intros strobes e_channel e_state Hlen Hbits. eexists.
    split; [apply reconstruct_ok; [lia|done]|].
    apply Forall_fmap.
    eapply Forall_impl; [apply registers_bit; [done|apply bit_register_zeros]|].
    intros r (Hr & Hb & H0). by apply word_value_7bit.
Qed.

Lemma words_are_7bit_witness :
  (for_each (seq 0 7) (channel_body [1; 7; 8] [1; 1; 1] 0 2) (replicate 8 0)
     = Ok [0; 1; 0; 0; 0; 0; 0; 1] →
   [0; 1; 0; 0; 0; 0; 0; 1] !! 0%nat = replicate 8 0 !! 0%nat)
  ∧ ∃ full_word,
      reconstruct_8bits_words [2]%nat [1; 7; 8] [1; 1; 1] = Ok full_word
      ∧ Forall (fun w => 0 ≤ w ≤ 127) full_word.
Proof.
  split.
  - apply (proj1 words_are_7bit [1; 7; 8] [1; 1; 1] 0%nat 2%nat).
  - apply (proj2 words_are_7bit [2]%nat [1; 7; 8] [1; 1; 1]).
    + reflexivity.
    + solve_bits.
Defined.

(** * The aligner *)

(** ** [np.unique] *)

Lemma drop_repeats_cons_cons (x y : Z) (l : list Z) :
  drop_repeats (x :: y :: l) =
    if Z.eqb x y then drop_repeats (y :: l) else x :: drop_repeats (y :: l).
Proof. reflexivity. Qed.

Lemma elem_of_drop_repeats (l : list Z) (x : Z) : x ∈ drop_repeats l ↔ x ∈ l.
Proof.
  induction l as [|y l IH]; [done|].
  destruct l as [|z l]; [done|].
  rewrite drop_repeats_cons_cons. destruct (Z.eqb_spec y z) as [->|Hne].
  - rewrite IH, !elem_of_cons. tauto.
  - rewrite elem_of_cons, IH. by rewrite (elem_of_cons (z :: l)).
Qed.

Lemma drop_repeats_sorted (l : list Z) :
  StronglySorted Z.le l → StronglySorted Z.lt (drop_repeats l).
Proof.
  induction 1 as [|y l Hsorted IH Hle]; [constructor|].
  destruct l as [|z l]; [repeat constructor|].
  rewrite drop_repeats_cons_cons. destruct (Z.eqb_spec y z) as [->|Hne]; [done|].
  constructor; [done|].
  apply Forall_forall. intros x Hx.
  apply (proj1 (elem_of_drop_repeats _ _)) in Hx.
  apply Forall_cons in Hle as [Hyz Hle].
  apply StronglySorted_inv in Hsorted as [_ Hz].
  apply elem_of_cons in Hx as [->|Hx]; [lia|].
  eapply Forall_forall in Hz; [|done]. lia.
Qed.

Lemma np_unique_sorted (a : list Z) : StronglySorted Z.lt (np_unique a).
Proof. apply drop_repeats_sorted, StronglySorted_merge_sort; apply _. Qed.

Lemma elem_of_np_unique (a : list Z) (x : Z) : x ∈ np_unique a ↔ x ∈ a.
Proof.
  unfold np_unique. rewrite elem_of_drop_repeats.
  by rewrite merge_sort_Permutation.
Qed.

Lemma sorted_lookup_lt (l : list Z) (i j : nat) (x y : Z) :
  StronglySorted Z.lt l → (i < j)%nat →
  l !! i = Some x → l !! j = Some y → x < y.
Proof.
  intros Hsorted. revert i j.
  induction Hsorted as [|z l _ IH Hlt]; intros i j Hij Hi Hj; [done|].
  destruct j as [|j]; [lia|]. destruct i as [|i]; simpl in *.
  - injection Hi as <-. eapply Forall_forall in Hlt; [done|].
    by eapply list_elem_of_lookup_2.
  - apply (IH i j); [lia|done|done].
Qed.

(** In a strictly ascending array the smaller element comes first. *)
Lemma sorted_lookup_order (l : list Z) (i j : nat) (x y : Z) :
  StronglySorted Z.lt l → l !! i = Some x → l !! j = Some y → x < y →
  (i < j)%nat.
Proof.
  intros Hsorted Hi Hj Hxy.
  destruct (decide (i < j)%nat) as [|Hge]; [done|].
  destruct (decide (i = j)) as [->|Hne]; [rewrite Hi in Hj; injection Hj; lia|].
  pose proof (sorted_lookup_lt l j i y x Hsorted ltac:(lia) Hj Hi). lia.
Qed.

(** ** Indexing *)

Lemma where_from_lookup (k i : nat) (mask : list bool) :
  i ∈ where_from k mask ↔ (k ≤ i)%nat ∧ mask !! (i - k)%nat = Some true.
Proof.
  revert k. induction mask as [|b mask IH]; intros k; simpl.
  - rewrite elem_of_nil. split; [done|]. by intros [_ ?].
  - assert (Hrest : i ∈ where_from (S k) mask ↔
              (k < i)%nat ∧ (b :: mask) !! (i - k)%nat = Some true).
    { rewrite IH. destruct (decide (k < i)%nat) as [Hlt|Hge]; [|split; lia].
      replace (i - k)%nat with (S (i - S k)) by lia. simpl. intuition lia. }
    destruct b.
    + rewrite elem_of_cons, Hrest. split.
      * intros [->|[? ?]]; [|split; [lia|done]].
        split; [lia|by rewrite Nat.sub_diag].
      * intros [Hle Hi]. destruct (decide (i = k)) as [->|]; [by left|right].
        split; [lia|done].
    + rewrite Hrest. split; [intros [? ?]; split; [lia|done]|].
      intros [Hle Hi]. split; [|done].
      destruct (decide (i = k)) as [->|]; [|lia].
      by rewrite Nat.sub_diag in Hi.
Qed.

(** The positions selected for a label are those of the trials carrying it. *)
Lemma elem_of_where_eq (a : list Z) (c : Z) (i : nat) :
  i ∈ np_where (eq_scalar a c) ↔ a !! i = Some c.
Proof.
  unfold np_where, eq_scalar. rewrite where_from_lookup, Nat.sub_0_r.
  rewrite list_lookup_fmap. destruct (a !! i) as [x|]; simpl.
  - destruct (Z.eqb_spec x c) as [->|Hne].
    + split; [done|]. split; [lia|done].
    + split; [by intros [_ ?]|]. intros [= ?]. done.
  - split; [by intros [_ ?]|done].
Qed.

Lemma take_at_ok {A : Type} (a : list A) (idx : list nat) :
  Forall (fun i => (i < length a)%nat) idx → ∃ g, take_at a idx = Ok g.
Proof.
  induction 1 as [|i idx Hi _ IH]; [by exists []|].
  destruct IH as [g IH].
  destruct (lookup_lt_is_Some_2 a i Hi) as [x Hx].
  exists (x :: g). simpl. unfold getitem. rewrite Hx. simpl. by rewrite IH.
Qed.

Lemma take_at_where (a blocks : list Z) (c : Z) :
  (length blocks ≤ length a)%nat →
  ∃ g, take_at a (np_where (eq_scalar blocks c)) = Ok g.
Proof.
  intros Hlen. apply take_at_ok, Forall_forall.
  intros i Hi. apply (proj1 (elem_of_where_eq _ _ _)) in Hi.
  apply lookup_lt_Some in Hi. lia.
Qed.

(** ** The block loop *)

Lemma block_loop_ok (blocks start_trials end_trials : list Z) (labels : list Z)
    (xs ys : list (list Z)) :
  (length blocks ≤ length start_trials)%nat →
  (length blocks ≤ length end_trials)%nat →
  ∃ gs ge,
    for_each labels (block_body blocks start_trials end_trials) (xs, ys) =
      Ok (xs ++ gs, ys ++ ge)
    ∧ Forall2 (group_of blocks start_trials) labels gs
    ∧ Forall2 (group_of blocks end_trials) labels ge.
Proof.
  intros Hs He. revert xs ys. induction labels as [|b labels IH]; intros xs ys.
  - exists [], []. rewrite !app_nil_r. by repeat split; try constructor.
  - destruct (take_at_where start_trials blocks b Hs) as [g1 Hg1].
    destruct (take_at_where end_trials blocks b He) as [g2 Hg2].
    destruct (IH (xs ++ [g1]) (ys ++ [g2])) as (gs & ge & Hloop & Hgs & Hge).
    exists (g1 :: gs), (g2 :: ge). split; [|split; by constructor].
    assert (Hbody : block_body blocks start_trials end_trials b (xs, ys) =
                      Ok (xs ++ [g1], ys ++ [g2])).
    { unfold block_body. by rewrite Hg1, Hg2. }
    cbn [for_each]. rewrite Hbody. cbn [mbind result_bind]. rewrite Hloop.
    by rewrite <- !app_assoc.
Qed.

(** ** [check_strobes] returns *)

Lemma check_strobes_ok (bhv : list bhv_entry) (full_word : list Z)
    (real_strobes : list nat) :
  trial_entries bhv ≠ [] →
  ∃ log, check_strobes bhv full_word real_strobes = Ok log.
Proof.
  intros Hne. unfold check_strobes, np_concatenate.
  destruct (map CodeNumbers (trial_entries bhv)) as [|c cs] eqn:Hc.
  - by apply fmap_nil_inv in Hc.
  - eexists. reflexivity.
Qed.

(** ** [find_events_codes] up to the block loop *)

Lemma length_take_at {A : Type} (a : list A) (idx : list nat) (g : list A) :
  take_at a idx = Ok g → length g = length idx.
Proof.
  revert g. induction idx as [|i idx IH]; intros g; simpl.
  - by intros [= <-].
  - destruct (getitem a i) as [x|]; [|done]. simpl.
    destruct (take_at a idx) as [g'|]; [|done]. simpl.
    intros [= <-]. simpl. f_equal. by apply IH.
Qed.

Lemma strobes_in_range (events : list event) :
  Forall (fun i => (i < length (map timestamp events))%nat)
    (np_where (strobe_mask events)).
Proof.
  apply Forall_forall. intros i Hi.
  apply where_from_bounds in Hi. unfold strobe_mask in Hi.
  rewrite !length_map in *. lia.
Qed.

Lemma decoded_ok (START_CODE END_CODE : Z) (events : list event) :
  Forall is_bit (map state events) →
  ∃ full_word real_strobes start_trials end_trials,
    decoded START_CODE END_CODE events full_word real_strobes start_trials end_trials.
Proof.
  intros Hbits. unfold decoded.
  destruct (take_at_ok _ _ (strobes_in_range events)) as [rs Hrs].
  eexists _, rs, _, _. split; [apply reconstruct_ok; [|done]|].
  { by rewrite !length_map. }
  split; [done|]. unfold bool_index, eq_scalar.
  rewrite !length_map, length_registers, (length_take_at _ _ _ Hrs).
  rewrite !decide_True by done. by split.
Qed.

Lemma find_events_codes_ok (START_CODE END_CODE : Z) (events : list event)
    (bhv : list bhv_entry) (full_word real_strobes start_trials end_trials : list Z) :
  let blocks := map Block (trial_entries bhv) in
  decoded START_CODE END_CODE events full_word real_strobes start_trials end_trials →
  trial_entries bhv ≠ [] →
  (length blocks ≤ length start_trials)%nat →
  (length blocks ≤ length end_trials)%nat →
  ∃ out,
    find_events_codes START_CODE END_CODE events bhv = Ok out
    ∧ out_full_word out = full_word
    ∧ out_real_strobes out = real_strobes
    ∧ out_blocks out = np_unique blocks
    ∧ Forall2 (group_of blocks start_trials) (out_blocks out)
        (out_bl_start_trials out)
    ∧ Forall2 (group_of blocks end_trials) (out_blocks out)
        (out_bl_end_trials out).
Proof.
  intros blocks (Hfw & Hrs & Hst & Hen) Htrials Hs He.
  destruct (check_strobes_ok bhv full_word (np_where (strobe_mask events)) Htrials)
    as [log Hlog].
  destruct (block_loop_ok blocks start_trials end_trials (np_unique blocks) [] []
              Hs He) as (gs & ge & Hloop & Hgs & Hge).
  eexists. split.
  - unfold find_events_codes. rewrite Hfw. cbn [mbind result_bind].
    rewrite Hlog. cbn [mbind result_bind]. rewrite Hrs. cbn [mbind result_bind].
    rewrite Hst. cbn [mbind result_bind]. rewrite Hen. cbn [mbind result_bind].
    fold blocks. rewrite Hloop. cbn [mbind result_bind]. reflexivity.
  - by repeat split.
Qed.

(** ** The sample sessions, end to end *)

Example first_occurrences_ex : first_occurrences [] [2; 1; 2; 3; 1] = [2; 1; 3].
Proof. vm_compute. reflexivity. Qed.

Example session_3 :
  find_events_codes 9 18 events_3 bhv_112 =
    Ok {| out_full_word := [9; 18; 9; 18; 9; 18];
          out_real_strobes := [10; 15; 20; 25; 30; 35];
          out_bl_start_trials := [[10; 20]; [30]];
          out_bl_end_trials := [[15; 25]; [35]];
          out_blocks := [1; 2];
          out_log :=
            [ info "Reconstructing 8 bit words" [];
              info "Strobe and codes number do match" [];
              info "Strobes = %d" [6];
              info "codes number = %d" [6];
              info "ML and OE code numbers do match" [];
              info "ML and OE codes are the same" [] ] |}.
Proof. vm_compute. reflexivity. Qed.

(** * The aligner: claims on the blocks *)

(** C3. When the decoding succeeds, the behavioural record has a trial and
    there are at least as many start and end timestamps as trials,
    [find_events_codes] returns; the labels it returns are the distinct
    block labels in strictly ascending order, and the entries of the
    per-block lists are, label by label in that order, [start_trials] and
    [end_trials] at the positions of the trials carrying the label. With the
    labels [1;1;2] and the start timestamps [10;20;30] the labels returned
    are [1;2] and the start lists are [10;20] and [30]. *)
Theorem blocks_in_label_order (START_CODE END_CODE : Z) (events : list event)
    (bhv : list bhv_entry) (full_word real_strobes start_trials end_trials : list Z) :
  let blocks := map Block (trial_entries bhv) in
  decoded START_CODE END_CODE events full_word real_strobes start_trials end_trials →
  trial_entries bhv ≠ [] →
  (length blocks ≤ length start_trials)%nat →
  (length blocks ≤ length end_trials)%nat →
  ∃ out,
    find_events_codes START_CODE END_CODE events bhv = Ok out
    ∧ StronglySorted Z.lt (out_blocks out)
    ∧ (∀ b, b ∈ out_blocks out ↔ b ∈ blocks)
    ∧ (∀ b i, i ∈ np_where (eq_scalar blocks b) ↔ blocks !! i = Some b)
    ∧ Forall2 (fun b g => take_at start_trials (np_where (eq_scalar blocks b)) = Ok g)
        (out_blocks out) (out_bl_start_trials out)
    ∧ Forall2 (fun b g => take_at end_trials (np_where (eq_scalar blocks b)) = Ok g)
        (out_blocks out) (out_bl_end_trials out)
    ∧ (blocks = [1; 1; 2] → start_trials = [10; 20; 30] →
       out_blocks out = [1; 2] ∧ out_bl_start_trials out = [[10; 20]; [30]]).
Proof.
  intros blocks Hdec Htrials Hs He.
  destruct (find_events_codes_ok START_CODE END_CODE events bhv _ _ _ _
              Hdec Htrials Hs He) as (out & Hout & _ & _ & Hlabels & Hgs & Hge).
  fold blocks in Hlabels, Hgs, Hge.
  exists out. split; [done|]. rewrite Hlabels in *.
  split; [apply np_unique_sorted|]. split; [apply elem_of_np_unique|].
  split; [intros b i; apply elem_of_where_eq|]. split; [done|]. split; [done|].
  intros Hb Hst. rewrite Hb, Hst in Hgs. split; [by rewrite Hb|].
  change (np_unique [1; 1; 2]) with [1; 2] in Hgs.
  apply Forall2_cons_inv_l in Hgs as (g1 & gs & Hg1 & Hgs & ->).
  apply Forall2_cons_inv_l in Hgs as (g2 & gs' & Hg2 & Hgs & ->).
  apply Forall2_nil_inv_l in Hgs as ->.
  unfold group_of in Hg1, Hg2. vm_compute in Hg1, Hg2.
  by injection Hg1 as <-; injection Hg2 as <-.
Qed.

Lemma blocks_in_label_order_witness :
  ∃ out,
    find_events_codes 9 18 events_3 bhv_112 = Ok out
    ∧ out_blocks out = [1; 2]
    ∧ out_bl_start_trials out = [[10; 20]; [30]].
Proof.
  destruct (blocks_in_label_order 9 18 events_3 bhv_112
              [9; 18; 9; 18; 9; 18] [10; 15; 20; 25; 30; 35]
              [10; 20; 30] [15; 25; 35])
    as (out & Hout & _ & _ & _ & _ & _ & Hex).
  - repeat split; vm_compute; reflexivity.
  - discriminate.
  - simpl. lia.
  - simpl. lia.
  - exists out. split; [exact Hout|]. apply Hex; reflexivity.
Defined.

(** C4, as the specification has it, fails: with the block labels 2 then 1
    the list of start timestamps begins with the trial of label 1, not with
    the trial of label 2 that comes first. *)
Lemma groups_not_in_first_occurrence_order :
  map Block (trial_entries bhv_21) = [2; 1]
  ∧ first_occurrences [] (map Block (trial_entries bhv_21)) = [2; 1]
  ∧ ∃ out,
      find_events_codes 9 18 events_2 bhv_21 = Ok out
      ∧ out_blocks out = [1; 2]
      ∧ out_bl_start_trials out = [[20]; [10]]
      ∧ out_bl_end_trials out = [[25]; [15]]
      ∧ ¬ Forall2 (group_of [2; 1] [10; 20])
            (first_occurrences [] [2; 1]) (out_bl_start_trials out).
Proof.
  split; [reflexivity|]. split; [reflexivity|].
  eexists. split; [vm_compute; reflexivity|]. cbn [out_blocks out_bl_start_trials
    out_bl_end_trials]. repeat split.
  intros H. change (first_occurrences [] [2; 1]) with [2; 1] in H.
  apply Forall2_cons_inv_l in H as (g & gs & Hg & _ & Heq).
  unfold group_of in Hg. vm_compute in Hg. congruence.
Qed.

(** C4, amended. Under the conditions of C3 the per-block lists follow the
    ascending order of the labels: for two labels [a < b] that occur, the
    lists of [a] come before the lists of [b], wherever the labels occur
    first among the trials. *)
Theorem groups_in_ascending_label_order (START_CODE END_CODE : Z)
    (events : list event) (bhv : list bhv_entry)
    (full_word real_strobes start_trials end_trials : list Z) :
  let blocks := map Block (trial_entries bhv) in
  decoded START_CODE END_CODE events full_word real_strobes start_trials end_trials →
  trial_entries bhv ≠ [] →
  (length blocks ≤ length start_trials)%nat →
  (length blocks ≤ length end_trials)%nat →
  ∃ out,
    find_events_codes START_CODE END_CODE events bhv = Ok out
    ∧ ∀ a b, a ∈ blocks → b ∈ blocks → a < b →
        ∃ i j sa sb ea eb,
          (i < j)%nat
          ∧ out_blocks out !! i = Some a ∧ out_blocks out !! j = Some b
          ∧ out_bl_start_trials out !! i = Some sa
          ∧ out_bl_start_trials out !! j = Some sb
          ∧ out_bl_end_trials out !! i = Some ea
          ∧ out_bl_end_trials out !! j = Some eb
          ∧ take_at start_trials (np_where (eq_scalar blocks a)) = Ok sa
          ∧ take_at start_trials (np_where (eq_scalar blocks b)) = Ok sb
          ∧ take_at end_trials (np_where (eq_scalar blocks a)) = Ok ea
          ∧ take_at end_trials (np_where (eq_scalar blocks b)) = Ok eb.
Proof.
  intros blocks Hdec Htrials Hs He.
  destruct (find_events_codes_ok START_CODE END_CODE events bhv _ _ _ _
              Hdec Htrials Hs He) as (out & Hout & _ & _ & Hlabels & Hgs & Hge).
  fold blocks in Hlabels, Hgs, Hge.
  exists out. split; [done|]. intros a b Ha Hb Hab.
  apply elem_of_np_unique, list_elem_of_lookup_1 in Ha as [i Hi].
  apply elem_of_np_unique, list_elem_of_lookup_1 in Hb as [j Hj].
  rewrite <- Hlabels in Hi, Hj.
  destruct (Forall2_lookup_l _ _ _ _ _ Hgs Hi) as (sa & Hsa & Hga).
  destruct (Forall2_lookup_l _ _ _ _ _ Hgs Hj) as (sb & Hsb & Hgb).
  destruct (Forall2_lookup_l _ _ _ _ _ Hge Hi) as (ea & Hea & Hgea).
  destruct (Forall2_lookup_l _ _ _ _ _ Hge Hj) as (eb & Heb & Hgeb).
  exists i, j, sa, sb, ea, eb. repeat split; try done.
  apply (sorted_lookup_order (out_blocks out) i j a b); try done.
  rewrite Hlabels. apply np_unique_sorted.
Qed.

Lemma groups_in_ascending_label_order_witness :
  ∃ out,
    find_events_codes 9 18 events_2 bhv_21 = Ok out
    ∧ ∃ i j sa sb,
        (i < j)%nat
        ∧ out_blocks out !! i = Some 1 ∧ out_blocks out !! j = Some 2
        ∧ out_bl_start_trials out !! i = Some sa
        ∧ out_bl_start_trials out !! j = Some sb.
Proof.
  destruct (groups_in_ascending_label_order 9 18 events_2 bhv_21
              [9; 18; 9; 18] [10; 15; 20; 25] [10; 20] [15; 25])
    as (out & Hout & Horder).
  - repeat split; vm_compute; reflexivity.
  - discriminate.
  - simpl. lia.
  - simpl. lia.
  - exists out. split; [exact Hout|].
    destruct (Horder 1 2) as (i & j & sa & sb & _ & _ & Hij & Hi & Hj & Hsa & Hsb & _).
    + vm_compute. apply list_elem_of_In. simpl. tauto.
    + vm_compute. apply list_elem_of_In. simpl. tauto.
    + lia.
    + by exists i, j, sa, sb.
Defined.

(** * The aligner: claims on the cross-validation *)

Lemma np_sum_sub_diag (a : list Z) : np_sum (np_sub a a) = 0.
Proof.
  unfold np_sum, np_sub. induction a as [|x a IH]; simpl; [done|]. lia.
Qed.

Lemma check_strobes_log (bhv : list bhv_entry) (full_word : list Z)
    (real_strobes : list nat) (bhv_codes : list Z) :
  np_concatenate (map CodeNumbers (trial_entries bhv)) = Ok bhv_codes →
  check_strobes bhv full_word real_strobes =
    Ok (strobe_count_log full_word real_strobes ++
        if decide (length full_word ≠ length bhv_codes) then
          [ info "Warning, ML and OE code numbers do not match" [] ]
        else
          [ info "ML and OE code numbers do match" [];
            if decide (np_sum (np_sub bhv_codes full_word) ≠ 0) then
              info "Warning, ML and OE codes are different" []
            else info "ML and OE codes are the same" [] ]).
Proof.
  intros Hcodes. unfold check_strobes. rewrite Hcodes. cbn [mbind result_bind].
  unfold strobe_count_log. do 2 f_equal.
  repeat case_decide; reflexivity.
Qed.

(** C7. When the behavioural codes and the decoded words have the same
    length, [check_strobes] returns; its last [logging.info] call is the
    warning that the codes are different when the differences do not sum to
    0, and the message that they are the same when the two sequences are
    equal. The words [3;7;2] against the codes [3;7;5] give the warning. *)
Theorem value_mismatch_logged (bhv : list bhv_entry) (full_word : list Z)
    (real_strobes : list nat) (bhv_codes : list Z) :
  np_concatenate (map CodeNumbers (trial_entries bhv)) = Ok bhv_codes →
  length full_word = length bhv_codes →
  ∃ log,
    check_strobes bhv full_word real_strobes = Ok log
    ∧ (np_sum (np_sub bhv_codes full_word) ≠ 0 →
       last log = Some (info "Warning, ML and OE codes are different" []))
    ∧ (bhv_codes = full_word →
       last log = Some (info "ML and OE codes are the same" []))
    ∧ (bhv_codes = [3; 7; 5] → full_word = [3; 7; 2] →
       last log = Some (info "Warning, ML and OE codes are different" [])).
Proof.
  intros Hcodes Hlen. eexists. split; [by apply check_strobes_log|].
  rewrite decide_False by (intros ?; done).
  assert (Hdiff : np_sum (np_sub bhv_codes full_word) ≠ 0 →
            last (strobe_count_log full_word real_strobes ++
                  [ info "ML and OE code numbers do match" [];
                    if decide (np_sum (np_sub bhv_codes full_word) ≠ 0) then
                      info "Warning, ML and OE codes are different" []
                    else info "ML and OE codes are the same" [] ]) =
              Some (info "Warning, ML and OE codes are different" [])).
  { intros Hsum. rewrite last_app. cbn [last]. by rewrite decide_True. }
  split; [done|]. split.
  - intros ->. rewrite last_app. cbn [last].
    rewrite decide_False; [done|]. rewrite np_sum_sub_diag. by intros ?.
  - intros -> ->. by apply Hdiff.
Qed.

Lemma value_mismatch_logged_witness :
  ∃ log,
    check_strobes [no_trial; trial [3; 7] 1; trial [5] 1; no_trial] [3; 7; 2]
      [2; 7; 12]%nat = Ok log
    ∧ last log = Some (info "Warning, ML and OE codes are different" []).
Proof.
  destruct (value_mismatch_logged
              [no_trial; trial [3; 7] 1; trial [5] 1; no_trial] [3; 7; 2]
              [2; 7; 12]%nat [3; 7; 5]) as (log & Hlog & _ & _ & Hex).
  - reflexivity.
  - reflexivity.
  - exists log. split; [exact Hlog|]. apply Hex; reflexivity.
Defined.

(** C8. When the behavioural record has a trial, [check_strobes] returns
    for all decoded words and strobe positions; when the number of words is
    not the number of strobes, its first [logging.info] call is the warning
    that the two numbers do not match, and when the number of words is not
    the number of behavioural codes its last call is the warning for that. *)
Theorem count_mismatch_logged (bhv : list bhv_entry) (full_word : list Z)
    (real_strobes : list nat) :
  trial_entries bhv ≠ [] →
  ∃ log bhv_codes,
    check_strobes bhv full_word real_strobes = Ok log
    ∧ np_concatenate (map CodeNumbers (trial_entries bhv)) = Ok bhv_codes
    ∧ (length full_word ≠ length real_strobes →
       head log = Some (info "Warning, Strobe and codes number do not match" []))
    ∧ (length full_word ≠ length bhv_codes →
       last log = Some (info "Warning, ML and OE code numbers do not match" [])).
Proof.
  intros Htrials.
  assert (∃ bhv_codes,
            np_concatenate (map CodeNumbers (trial_entries bhv)) = Ok bhv_codes)
    as [bhv_codes Hcodes].
  { unfold np_concatenate.
    destruct (map CodeNumbers (trial_entries bhv)) as [|c cs] eqn:Hc.
    - by apply fmap_nil_inv in Hc.
    - by eexists. }
  eexists _, bhv_codes. split; [by apply check_strobes_log|].
  split; [done|]. split.
  - intros Hne. unfold strobe_count_log. by rewrite decide_True.
  - intros Hne. rewrite last_app. by rewrite decide_True.
Qed.

Lemma count_mismatch_logged_witness :
  ∃ log bhv_codes,
    check_strobes bhv_112 [9; 18; 9] [2; 7]%nat = Ok log
    ∧ np_concatenate (map CodeNumbers (trial_entries bhv_112)) = Ok bhv_codes
    ∧ head log = Some (info "Warning, Strobe and codes number do not match" [])
    ∧ last log = Some (info "Warning, ML and OE code numbers do not match" []).
Proof.
  destruct (count_mismatch_logged bhv_112 [9; 18; 9] [2; 7]%nat)
    as (log & bhv_codes & Hlog & Hcodes & Hhead & Hlast).
  - discriminate.
  - exists log, bhv_codes. split; [exact Hlog|]. split; [exact Hcodes|].
    split.
    + apply Hhead. simpl. lia.
    + apply Hlast. vm_compute in Hcodes. injection Hcodes as <-. simpl. lia.
Defined.

(** C8, where it speaks of the aligner as a whole: on the session
    [events_2], which strobes four words, and the record [bhv_112] of three
    trials with six codes, [check_strobes] logs that the numbers of codes do
    not match, and [find_events_codes] then raises [IndexError] in the loop
    over the blocks: there are two start timestamps for three trials. *)
Theorem aligner_raises_after_count_warning :
  let idx_real_strobes := np_where (strobe_mask events_2) in
  reconstruct_8bits_words idx_real_strobes (map channel events_2)
    (map state events_2) = Ok [9; 18; 9; 18]
  ∧ np_concatenate (map CodeNumbers (trial_entries bhv_112)) =
      Ok [9; 18; 9; 18; 9; 18]
  ∧ check_strobes bhv_112 [9; 18; 9; 18] idx_real_strobes =
      Ok [ info "Strobe and codes number do match" [];
           info "Strobes = %d" [4];
           info "codes number = %d" [4];
           info "Warning, ML and OE code numbers do not match" [] ]
  ∧ find_events_codes 9 18 events_2 bhv_112 = Raise IndexError.
Proof. repeat split; vm_compute; reflexivity. Qed.

(** C10. The words [3;7;2] and the behavioural codes [2;8;2] differ in two
    places, but the differences sum to 0: [check_strobes] logs that the
    codes are the same, and no warning. *)
Theorem cancelling_differences_pass :
  let bhv := [no_trial; trial [2; 8; 2] 1; no_trial] in
  np_concatenate (map CodeNumbers (trial_entries bhv)) = Ok [2; 8; 2]
  ∧ np_sub [2; 8; 2] [3; 7; 2] = [-1; 1; 0]
  ∧ np_sum (np_sub [2; 8; 2] [3; 7; 2]) = 0
  ∧ check_strobes bhv [3; 7; 2] [0; 1; 2]%nat =
      Ok [ info "Strobe and codes number do match" [];
           info "Strobes = %d" [3];
           info "codes number = %d" [3];
           info "ML and OE code numbers do match" [];
           info "ML and OE codes are the same" [] ].
Proof. repeat split; vm_compute; reflexivity. Qed.

(** * More on the decoder *)

(** ** Two event tables with a common prefix *)

(** The decoded words depend on the events before the last strobe only: two
    event tables that agree on their first [n] rows decode alike at strobes
    up to position [n], whether the call returns or raises. *)
Theorem reconstruct_reads_prefix (real_strobes : list nat) (n : nat)
    (e_channel e_state e_channel' e_state' : list Z) :
  Forall (fun s => (s ≤ n)%nat) real_strobes →
  take n e_channel = take n e_channel' →
  take n e_state = take n e_state' →
  reconstruct_8bits_words real_strobes e_channel e_state =
  reconstruct_8bits_words real_strobes e_channel' e_state'.
Proof.
  intros Hn Hc Hs. unfold reconstruct_8bits_words.
  rewrite (for_each_ext _ _ (strobe_body e_channel' e_state' 0)); [done|].
  intros [k s] st Hks. apply (strobe_body_prefix _ _ _ _ n); try done.
  unfold enumerate in Hks. apply elem_of_zip_r in Hks.
  by eapply Forall_forall in Hn.
Qed.

Lemma reconstruct_reads_prefix_witness :
  reconstruct_8bits_words [1; 3]%nat [1; 8; 2; 8; 3; 5] [1; 1; 1; 1; 7; 0] =
  reconstruct_8bits_words [1; 3]%nat [1; 8; 2; 8] [1; 1; 1; 1].
Proof.
  apply (reconstruct_reads_prefix [1; 3]%nat 4).
  - repeat constructor; lia.
  - reflexivity.
  - reflexivity.
Defined.

(** ** Ascending strobes decode one by one *)

Lemma sample_register_restart (e_channel e_state : list Z) (b s : nat)
    (r : list Z) :
  (length e_channel ≤ length e_state)%nat →
  length r = 8%nat → r !! 0%nat = Some 0 →
  holds_scan e_channel e_state b r → (b ≤ s)%nat →
  sample_register e_channel e_state s r =
  sample_register e_channel e_state s (replicate 8 0).
Proof.
  intros Hlen Hr H0 Hinv Hbs. apply list_eq. intros p.
  unfold sample_register. rewrite !list_lookup_imap.
  destruct (r !! p) as [old|] eqn:Hp.
  - rewrite lookup_replicate_2 by (apply lookup_lt_Some in Hp; lia). simpl.
    f_equal. case_decide as Hp0.
    + subst p. congruence.
    + rewrite (Hinv p old Hp Hp0). by apply sampled_held.
  - apply lookup_ge_None in Hp.
    by rewrite (proj1 (lookup_replicate_None 8 0 p)) by lia.
Qed.

Lemma holds_scan_sample (e_channel e_state : list Z) (s : nat) :
  holds_scan e_channel e_state s
    (sample_register e_channel e_state s (replicate 8 0)).
Proof.
  intros p old. unfold sample_register. rewrite list_lookup_imap.
  destruct (replicate 8 0 !! p) as [z|] eqn:Hp; [|done].
  apply lookup_replicate in Hp as [-> _]. simpl. intros [= <-] Hp0.
  by rewrite decide_False.
Qed.

Lemma registers_sorted (e_channel e_state : list Z) (strobes : list nat)
    (b : nat) (r : list Z) :
  (length e_channel ≤ length e_state)%nat →
  length r = 8%nat → r !! 0%nat = Some 0 →
  holds_scan e_channel e_state b r →
  StronglySorted le (b :: strobes) →
  registers e_channel e_state r strobes =
    map (fun s => sample_register e_channel e_state s (replicate 8 0)) strobes.
Proof.
  intros Hlen. revert b r.
  induction strobes as [|s rest IH]; intros b r Hr H0 Hinv Hsorted; [done|].
  apply StronglySorted_inv in Hsorted as [Hsorted Hle].
  apply Forall_cons in Hle as [Hbs _].
  cbn [registers]. rewrite fmap_cons.
  rewrite (sample_register_restart _ _ b s r) by done. f_equal.
  apply (IH s);
    [by rewrite length_sample_register|by rewrite sample_register_0
    |apply holds_scan_sample|done].
Qed.

(** For ascending strobe positions every word is the word that decoding
    that strobe alone gives: the scan of a strobe starts at position 0 of
    the event table, not at the previous strobe. *)
Theorem reconstruct_strobe_by_strobe (real_strobes : list nat)
    (e_channel e_state : list Z) :
  length e_channel = length e_state →
  Forall is_bit e_state →
  StronglySorted le real_strobes →
  ∃ full_word,
    reconstruct_8bits_words real_strobes e_channel e_state = Ok full_word
    ∧ Forall2 (fun s w => reconstruct_8bits_words [s] e_channel e_state = Ok [w])
        real_strobes full_word.
Proof.
  intros Hlen Hbits Hsorted. eexists. split; [apply reconstruct_ok; [lia|done]|].
  rewrite (registers_sorted _ _ _ 0%nat); try done.
  - rewrite <- list_fmap_compose. apply Forall2_fmap_r, Forall_Forall2_diag.
    apply Forall_forall. intros s _. by rewrite reconstruct_ok by (lia || done).
  - lia.
  - apply holds_scan_zeros.
  - constructor; [done|]. apply Forall_forall. intros; lia.
Qed.

Lemma reconstruct_strobe_by_strobe_witness :
  ∃ full_word,
    reconstruct_8bits_words [2; 5]%nat [1; 2; 8; 1; 3; 8] [1; 1; 1; 0; 1; 1]
      = Ok full_word
    ∧ Forall2
        (fun s w =>
           reconstruct_8bits_words [s] [1; 2; 8; 1; 3; 8] [1; 1; 1; 0; 1; 1]
             = Ok [w]) [2; 5]%nat full_word.
Proof.
  apply (reconstruct_strobe_by_strobe [2; 5]%nat [1; 2; 8; 1; 3; 8]
           [1; 1; 1; 0; 1; 1]).
  - reflexivity.
  - solve_bits.
  - repeat constructor; lia.
Defined.

(** ** States that are not bits, and missing states *)

Lemma digits_base2_app (s1 s2 : string) (acc : Z) :
  digits_base2 (s1 ++ s2) acc = digits_base2 s1 acc ≫= digits_base2 s2.
Proof.
  revert acc. induction s1 as [|c s1 IH]; intros acc; simpl; [done|].
  destruct (Ascii.eqb c "0"); [apply IH|].
  destruct (Ascii.eqb c "1"); [apply IH|done].
Qed.

Lemma digits_base2_raise (s : string) (acc : Z) (e : exn) :
  digits_base2 s acc = Raise e → e = ValueError.
Proof.
  revert acc. induction s as [|c s IH]; intros acc; simpl; [done|].
  destruct (Ascii.eqb c "0"); [apply IH|].
  destruct (Ascii.eqb c "1"); [apply IH|]. by intros [= <-].
Qed.


Lemma digits_base2_str_bad (v : Z) (rest : string) (acc : Z) :
  not_binary v → digits_base2 (str v ++ rest) acc = Raise ValueError.
Proof.
  intros [Hneg|Hdigit].
  - destruct v as [|p|p]; [lia|lia|]. reflexivity.
  - assert (v = 2 ∨ v = 3 ∨ v = 4 ∨ v = 5 ∨ v = 6 ∨ v = 7 ∨ v = 8 ∨ v = 9)
      as Hv by lia.
    destruct Hv as [->|[->|[->|[->|[->|[->|[->| ->]]]]]]]; reflexivity.
Qed.

Lemma digits_base2_bad (r : list Z) (v : Z) (acc : Z) :
  v ∈ r → not_binary v →
  digits_base2 (join (map str r)) acc = Raise ValueError.
Proof.
  intros Hv Hbad. revert acc. induction r as [|x r IH]; intros acc.
  - by apply elem_of_nil in Hv.
  - rewrite fmap_cons, join_cons.
    apply elem_of_cons in Hv as [<-|Hv]; [by apply digits_base2_str_bad|].
    rewrite digits_base2_app.
    destruct (digits_base2 (str x) acc) as [a|e] eqn:Hx; simpl; [by apply IH|].
    by apply digits_base2_raise in Hx as ->.
Qed.

Lemma word_of_register_bad (r : list Z) (v : Z) :
  r !! 0%nat = Some 0 → v ∈ r → not_binary v →
  word_of_register r = Raise ValueError.
Proof.
  intros H0 Hv Hbad. destruct r as [|r0 r]; [done|]. injection H0 as ->.
  apply elem_of_cons in Hv as [->|Hv]; [destruct Hbad; lia|].
  unfold word_of_register. rewrite fmap_cons, join_cons.
  change (str 0) with "0"%string. cbn [String.append int_base2 Ascii.eqb].
  cbn. by apply (digits_base2_bad r v).
Qed.


Lemma last_on_event (e_channel : list Z) (c : Z) (s i : nat) :
  last_event_before e_channel c s i → last_on e_channel c s = Some i.
Proof.
  intros (His & Hi & Hafter).
  rewrite (last_on_skip e_channel c (S i) s); [|lia|].
  - by rewrite last_on_S, decide_True.
  - intros j Hj. apply Hafter. lia.
Qed.

Lemma reconstruct_first_raise (s : nat) (rest : list nat)
    (e_channel e_state : list Z) (e : exn) :
  strobe_body e_channel e_state 0 (0%nat, s)
    (replicate 8 0, replicate (length (s :: rest)) 0) = Raise e →
  reconstruct_8bits_words (s :: rest) e_channel e_state = Raise e.
Proof.
  intros Hbody. unfold reconstruct_8bits_words.
  change (enumerate (s :: rest))
    with ((0%nat, s) :: zip (seq 1 (length rest)) rest).
  cbn [for_each]. by rewrite Hbody.
Qed.

(** A state that is negative or a digit 2..9, on the last event of a data
    line before the first strobe, makes the call raise [ValueError]: the
    register is read through its decimal numerals as a binary numeral. *)
Theorem reconstruct_rejects_state (s : nat) (rest : list nat)
    (e_channel e_state : list Z) (c : Z) (i : nat) (v : Z) :
  (length e_channel ≤ length e_state)%nat →
  1 ≤ c ≤ 7 →
  last_event_before e_channel c s i →
  e_state !! i = Some v →
  not_binary v →
  reconstruct_8bits_words (s :: rest) e_channel e_state = Raise ValueError.
Proof.
  intros Hlen Hc Hlast Hv Hbad. apply reconstruct_first_raise.
  unfold strobe_body. rewrite channel_loop_ok by done. cbn [mbind result_bind].
  rewrite (word_of_register_bad _ v); [done| | |done].
  - by rewrite sample_register_0.
  - apply (list_elem_of_lookup_2 _ (Z.to_nat (8 - c))).
    unfold sample_register. rewrite list_lookup_imap.
    rewrite lookup_replicate_2 by lia. simpl. rewrite decide_False by lia.
    replace (8 - Z.of_nat (Z.to_nat (8 - c))) with c by lia.
    unfold sampled. by rewrite (last_on_event _ _ _ _ Hlast), Hv.
Qed.

Lemma reconstruct_rejects_state_witness :
  reconstruct_8bits_words [2; 4]%nat [1; 3; 8; 2; 8] [1; 2; 1; 1; 1] =
    Raise ValueError.
Proof.
  apply (reconstruct_rejects_state 2 [4]%nat [1; 3; 8; 2; 8] [1; 2; 1; 1; 1] 3 1 2).
  - simpl. lia.
  - lia.
  - split; [lia|]. split; [reflexivity|]. intros j Hj. lia.
  - reflexivity.
  - right. lia.
Defined.

Lemma channel_body_missing (e_channel e_state : list Z) (idx_strobe ch : nat)
    (r : list Z) :
  length r = 8%nat → (ch < 7)%nat →
  (∃ r', channel_body e_channel e_state 0 idx_strobe ch r = Ok r'
         ∧ length r' = 8%nat)
  ∨ channel_body e_channel e_state 0 idx_strobe ch r = Raise KeyOrIndexError.
Proof.
  intros Hr Hch. unfold channel_body, state_at, getitem, setitem.
  destruct (last _) as [i|].
  - destruct (e_state !! i) as [v|]; simpl; [|by right].
    rewrite decide_True by lia. left. eexists. split; [done|].
    by rewrite length_insert.
  - destruct (lookup_lt_is_Some_2 r (7 - ch)) as [v ->]; [lia|]. simpl.
    rewrite decide_True by lia. left. eexists. split; [done|].
    by rewrite length_insert.
Qed.

Lemma for_each_raise {A S : Type} (P : S → Prop) (xs : list A)
    (body : A → S → result S) (x : A) (s : S) (e : exn) :
  (∀ y s', y ∈ xs → P s' →
     (∃ s'', body y s' = Ok s'' ∧ P s'') ∨ body y s' = Raise e) →
  x ∈ xs → (∀ s', body x s' = Raise e) → P s →
  for_each xs body s = Raise e.
Proof.
  intros Hstep Hx Hraise. revert s.
  induction xs as [|y xs IH]; intros s Hs; [by apply elem_of_nil in Hx|].
  simpl. apply elem_of_cons in Hx as [->|Hx]; [by rewrite Hraise|].
  destruct (Hstep y s) as [(s'' & -> & Hs'')| ->]; [by left|done| |done].
  simpl. apply IH; [|done|done]. intros z s' Hz. apply Hstep. by right.
Qed.

(** When the last event of a data line before the first strobe lies beyond
    the end of the state column, the call raises at [e_state[idx_ch[-1]]]:
    an [IndexError] for a numpy array, a [KeyError] for a pandas Series. *)
Theorem reconstruct_missing_state (s : nat) (rest : list nat)
    (e_channel e_state : list Z) (c : Z) (i : nat) :
  1 ≤ c ≤ 7 →
  last_event_before e_channel c s i →
  (length e_state ≤ i)%nat →
  reconstruct_8bits_words (s :: rest) e_channel e_state = Raise KeyOrIndexError.
Proof.
  intros Hc Hlast Hi. apply reconstruct_first_raise.
  unfold strobe_body.
  rewrite (for_each_raise (fun r => length r = 8%nat) _ _ (Z.to_nat (c - 1)) _
             KeyOrIndexError); [done| | | |done].
  - intros ch r Hch%elem_of_seq Hr. apply channel_body_missing; [done|lia].
  - apply elem_of_seq. lia.
  - intros r. unfold channel_body.
    replace (Z.of_nat (Z.to_nat (c - 1)) + 1) with c by lia.
    fold (last_on e_channel c s). rewrite (last_on_event _ _ _ _ Hlast).
    unfold state_at. by rewrite (proj2 (lookup_ge_None e_state i)) by done.
Qed.

Lemma reconstruct_missing_state_witness :
  reconstruct_8bits_words [3]%nat [1; 8; 2; 8] [1; 1] = Raise KeyOrIndexError.
Proof.
  apply (reconstruct_missing_state 3 []%nat [1; 8; 2; 8] [1; 1] 2 2).
  - lia.
  - split; [lia|]. split; [reflexivity|]. intros j Hj. lia.
  - simpl. lia.
Defined.

(** * More on the cross-validation *)

Lemma length_trial_entries (bhv : list bhv_entry) :
  length (trial_entries bhv) = (length bhv - 2)%nat.
Proof.
  unfold trial_entries, slice. rewrite length_take, length_drop. lia.
Qed.

Lemma trial_entries_nil (bhv : list bhv_entry) :
  trial_entries bhv = [] ↔ (length bhv ≤ 2)%nat.
Proof.
  rewrite <- length_zero_iff_nil, length_trial_entries. lia.
Qed.

(** [check_strobes] raises exactly when the behavioural record has no entry
    between its first and its last key, and then with the [ValueError] of
    [np.concatenate]; the decoded words and the strobes play no part. *)
Theorem check_strobes_raises_iff (bhv : list bhv_entry) (full_word : list Z)
    (real_strobes : list nat) :
  (check_strobes bhv full_word real_strobes = Raise ValueError
   ↔ (length bhv ≤ 2)%nat)
  ∧ ((∃ log, check_strobes bhv full_word real_strobes = Ok log)
     ↔ (2 < length bhv)%nat).
Proof.
  rewrite <- trial_entries_nil.
  destruct (trial_entries bhv) as [|t ts] eqn:Ht.
  - assert (check_strobes bhv full_word real_strobes = Raise ValueError) as ->.
    { unfold check_strobes. by rewrite Ht. }
    apply trial_entries_nil in Ht. split; [done|].
    split; [by intros [log ?]|lia].
  - destruct (check_strobes_ok bhv full_word real_strobes) as [log Hlog];
      [by rewrite Ht|].
    assert (2 < length bhv)%nat.
    { pose proof (length_trial_entries bhv) as Hl. rewrite Ht in Hl.
      simpl in Hl. lia. }
    rewrite Hlog. split; [done|]. split; [done|by exists log].
Qed.

Lemma np_sum_sub_nonneg (codes words : list Z) :
  Forall2 Z.le words codes →
  0 ≤ np_sum (np_sub codes words)
  ∧ (np_sum (np_sub codes words) = 0 → codes = words).
Proof.
  unfold np_sum, np_sub.
  induction 1 as [|w c words codes Hwc _ [IH0 IHeq]]; simpl; [done|].
  split; [lia|]. intros Hsum.
  assert (c = w) as -> by lia. f_equal. apply IHeq. lia.
Qed.

(** When no decoded word exceeds its behavioural code, differences cannot
    cancel: the last message is the one for equal codes exactly when the
    two sequences are equal. The codes, the words and the sum of the
    differences are within [2 ^ 53], where the float64 subtraction and sum
    of the source are exact: the differences are not negative, so every
    partial sum is an integer between 0 and the whole sum. *)
Theorem check_strobes_exact_when_ordered (bhv : list bhv_entry)
    (full_word : list Z) (real_strobes : list nat) (bhv_codes : list Z) :
  np_concatenate (map CodeNumbers (trial_entries bhv)) = Ok bhv_codes →
  Forall2 Z.le full_word bhv_codes →
  Forall float_exact bhv_codes →
  Forall float_exact full_word →
  float_exact (np_sum (np_sub bhv_codes full_word)) →
  ∃ log,
    check_strobes bhv full_word real_strobes = Ok log
    ∧ (last log = Some (info "ML and OE codes are the same" [])
       ↔ bhv_codes = full_word).
Proof.
  intros Hcodes Hle _ _ _. eexists. split; [by apply check_strobes_log|].
  rewrite decide_False by (intros Hne; apply Hne; by eapply Forall2_length).
  rewrite last_app. cbn [last].
  destruct (np_sum_sub_nonneg _ _ Hle) as [_ Heq].
  case_decide as Hsum.
  - split; [done|]. intros ->. by rewrite np_sum_sub_diag in Hsum.
  - split; [|done]. intros _. apply Heq.
    by destruct (decide (np_sum (np_sub bhv_codes full_word) = 0)).
Qed.

Lemma check_strobes_exact_when_ordered_witness :
  ∃ log,
    check_strobes [no_trial; trial [3; 7] 1; trial [5] 1; no_trial] [3; 6; 5]
      [2; 7; 12]%nat = Ok log
    ∧ (last log = Some (info "ML and OE codes are the same" [])
       ↔ [3; 7; 5] = [3; 6; 5]).
Proof.
  apply (check_strobes_exact_when_ordered
           [no_trial; trial [3; 7] 1; trial [5] 1; no_trial] [3; 6; 5]
           [2; 7; 12]%nat [3; 7; 5]).
  - reflexivity.
  - repeat constructor; lia.
  - repeat constructor; unfold float_exact; simpl; lia.
  - repeat constructor; unfold float_exact; simpl; lia.
  - unfold float_exact. simpl. lia.
Defined.

(** * More on [find_events_codes] *)

(** ** The steps of a call that returns *)

Lemma find_events_codes_inv (START_CODE END_CODE : Z) (events : list event)
    (bhv : list bhv_entry) (out : codes) :
  find_events_codes START_CODE END_CODE events bhv = Ok out →
  ∃ full_word log real_strobes start_trials end_trials bl,
    decoded START_CODE END_CODE events full_word real_strobes start_trials
      end_trials
    ∧ check_strobes bhv full_word (np_where (strobe_mask events)) = Ok log
    ∧ for_each (np_unique (map Block (trial_entries bhv)))
        (block_body (map Block (trial_entries bhv)) start_trials end_trials)
        ([], []) = Ok bl
    ∧ out = {| out_full_word := full_word;
               out_real_strobes := real_strobes;
               out_bl_start_trials := fst bl;
               out_bl_end_trials := snd bl;
               out_blocks := np_unique (map Block (trial_entries bhv));
               out_log := info "Reconstructing 8 bit words" [] :: log |}.
Proof.
  unfold find_events_codes, decoded.
  destruct (reconstruct_8bits_words _ _ _) as [fw|] eqn:Hfw; [|done]. simpl.
  destruct (check_strobes _ _ _) as [log|] eqn:Hlog; [|done]. simpl.
  destruct (take_at _ _) as [rs|] eqn:Hrs; [|done]. simpl.
  destruct (bool_index rs (eq_scalar fw START_CODE)) as [st|] eqn:Hst; [|done].
  simpl.
  destruct (bool_index rs (eq_scalar fw END_CODE)) as [en|] eqn:Hen; [|done].
  simpl.
  destruct (for_each _ _ _) as [bl|] eqn:Hbl; [|done]. simpl.
  intros [= <-]. by exists fw, log, rs, st, en, bl.
Qed.

Lemma block_loop_inv (blocks start_trials end_trials : list Z) (labels : list Z)
    (xs ys xs' ys' : list (list Z)) :
  for_each labels (block_body blocks start_trials end_trials) (xs, ys) =
    Ok (xs', ys') →
  ∃ gs ge,
    xs' = xs ++ gs ∧ ys' = ys ++ ge
    ∧ Forall2 (group_of blocks start_trials) labels gs
    ∧ Forall2 (group_of blocks end_trials) labels ge.
Proof.
  revert xs ys. induction labels as [|b labels IH]; intros xs ys; simpl.
  - intros [= <- <-]. exists [], []. rewrite !app_nil_r.
    by repeat split; try constructor.
  - destruct (take_at start_trials _) as [g1|] eqn:Hg1; [|done]. simpl.
    destruct (take_at end_trials _) as [g2|] eqn:Hg2; [|done]. simpl.
    intros (gs & ge & -> & -> & Hgs & Hge)%IH.
    exists (g1 :: gs), (g2 :: ge). rewrite <- !app_assoc.
    by repeat split; try constructor.
Qed.

(** ** The strobes that are returned *)


Lemma take_at_where_filter (events : list event) (pre : list Z) :
  take_at (pre ++ map timestamp events)
    (where_from (length pre) (map is_strobe events)) =
  Ok (map timestamp (List.filter is_strobe events)).
Proof.
  revert pre. induction events as [|e events IH]; intros pre; [done|].
  specialize (IH (pre ++ [timestamp e])).
  rewrite <- app_assoc, length_app, Nat.add_1_r in IH.
  change ([timestamp e] ++ map timestamp events)
    with (timestamp e :: map timestamp events) in IH.
  change (map timestamp (e :: events))
    with (timestamp e :: map timestamp events).
  change (map is_strobe (e :: events))
    with (is_strobe e :: map is_strobe events).
  cbn [List.filter where_from].
  destruct (is_strobe e); [|done].
  cbn [take_at map]. unfold getitem. rewrite list_lookup_middle by done.
  cbn [mbind result_bind]. by rewrite IH.
Qed.

Lemma for_each_cons {A S : Type} (x : A) (xs : list A)
    (body : A → S → result S) (s : S) :
  for_each (x :: xs) body s = body x s ≫= for_each xs body.
Proof. reflexivity. Qed.

Lemma strobe_body_length (e_channel e_state : list Z) (it : nat * nat)
    (st st' : list Z * list Z) :
  strobe_body e_channel e_state 0 it st = Ok st' →
  length (snd st') = length (snd st).
Proof.
  destruct it as [k s], st as [r fw]. unfold strobe_body.
  destruct (for_each (seq 0 7) (channel_body e_channel e_state 0 s) r)
    as [r1|]; [|done]. cbn [mbind result_bind].
  destruct (word_of_register r1) as [w|]; [|done]. cbn [mbind result_bind].
  unfold setitem. case_decide; [|done]. cbn [mbind result_bind].
  intros [= <-]. apply length_insert.
Qed.

Lemma strobe_loop_length (e_channel e_state : list Z) (its : list (nat * nat))
    (st st' : list Z * list Z) :
  for_each its (strobe_body e_channel e_state 0) st = Ok st' →
  length (snd st') = length (snd st).
Proof.
  revert st. induction its as [|it its IH]; intros st.
  - by intros [= <-].
  - rewrite for_each_cons.
    destruct (strobe_body e_channel e_state 0 it st) as [st1|] eqn:Hbody;
      [|done].
    cbn [mbind result_bind]. intros Hrest. apply IH in Hrest.
    rewrite Hrest. by apply strobe_body_length in Hbody.
Qed.

Lemma reconstruct_length (real_strobes : list nat) (e_channel e_state : list Z)
    (full_word : list Z) :
  reconstruct_8bits_words real_strobes e_channel e_state = Ok full_word →
  length full_word = length real_strobes.
Proof.
  unfold reconstruct_8bits_words.
  destruct (for_each _ _ _) as [st|] eqn:Hloop; [|done]. simpl.
  intros [= <-]. apply strobe_loop_length in Hloop.
  rewrite Hloop. cbn [snd]. apply length_replicate.
Qed.

(** When [find_events_codes] returns, the strobe timestamps it returns are
    the timestamps of the strobe events, in the order of the event table;
    they are positive, and there is one decoded word for each. *)
Theorem find_events_codes_strobes (START_CODE END_CODE : Z)
    (events : list event) (bhv : list bhv_entry) (out : codes) :
  find_events_codes START_CODE END_CODE events bhv = Ok out →
  out_real_strobes out = map timestamp (List.filter is_strobe events)
  ∧ Forall (fun t => 0 < t) (out_real_strobes out)
  ∧ length (out_full_word out) = length (out_real_strobes out).
Proof.
  intros (fw & log & rs & st & en & bl & (Hfw & Hrs & _) & _ & _ & ->)
    %find_events_codes_inv.
  cbn [out_real_strobes out_full_word].
  pose proof (take_at_where_filter events []) as Hfilter.
  change (take_at (map timestamp events) (np_where (strobe_mask events)) =
          Ok (map timestamp (List.filter is_strobe events))) in Hfilter.
  rewrite Hrs in Hfilter. injection Hfilter as ->.
  split; [done|]. split.
  - apply Forall_fmap, Forall_forall. intros e He.
    apply list_elem_of_In, filter_In in He as [_ He].
    unfold is_strobe in He. simpl. lia.
  - rewrite (reconstruct_length _ _ _ _ Hfw).
    by rewrite (length_take_at _ _ _ Hrs).
Qed.

Lemma find_events_codes_strobes_witness :
  [10; 15; 20; 25; 30; 35] = map timestamp (List.filter is_strobe events_3)
  ∧ Forall (fun t => 0 < t) [10; 15; 20; 25; 30; 35]
  ∧ length [9; 18; 9; 18; 9; 18] = length [10; 15; 20; 25; 30; 35].
Proof.
  apply (find_events_codes_strobes 9 18 events_3 bhv_112
           {| out_full_word := [9; 18; 9; 18; 9; 18];
              out_real_strobes := [10; 15; 20; 25; 30; 35];
              out_bl_start_trials := [[10; 20]; [30]];
              out_bl_end_trials := [[15; 25]; [35]];
              out_blocks := [1; 2];
              out_log :=
                [ info "Reconstructing 8 bit words" [];
                  info "Strobe and codes number do match" [];
                  info "Strobes = %d" [6];
                  info "codes number = %d" [6];
                  info "ML and OE code numbers do match" [];
                  info "ML and OE codes are the same" [] ] |}).
  vm_compute. reflexivity.
Defined.

(** ** Every trial lands in one block *)

Lemma take_at_lookup {A : Type} (a : list A) (idx : list nat) (g : list A) :
  take_at a idx = Ok g → Forall2 (fun i v => a !! i = Some v) idx g.
Proof.
  revert g. induction idx as [|i idx IH]; intros g; simpl.
  - intros [= <-]. constructor.
  - unfold getitem. destruct (a !! i) as [x|] eqn:Hx; [|done]. simpl.
    destruct (take_at a idx) as [g'|]; [|done]. simpl.
    intros [= <-]. constructor; [done|by apply IH].
Qed.


Lemma take_at_labelled (blocks a pre : list Z) (b : Z) :
  (length blocks ≤ length a)%nat →
  take_at (pre ++ a) (where_from (length pre) (eq_scalar blocks b)) =
    Ok (labelled blocks a b).
Proof.
  revert a pre. induction blocks as [|x blocks IH]; intros a pre Hlen; [done|].
  destruct a as [|v a]; [simpl in Hlen; lia|].
  specialize (IH a (pre ++ [v])).
  rewrite <- app_assoc, length_app, Nat.add_1_r in IH.
  change ([v] ++ a) with (v :: a) in IH.
  unfold labelled in *. cbn [zip zip_with]. rewrite filter_cons.
  change (eq_scalar (x :: blocks) b) with ((x =? b) :: eq_scalar blocks b).
  cbn [where_from fst]. destruct (Z.eqb_spec x b) as [->|Hne].
  - rewrite decide_True by done. cbn [take_at]. unfold getitem.
    rewrite list_lookup_middle by done. cbn [mbind result_bind].
    rewrite IH by (simpl in Hlen; lia). done.
  - rewrite decide_False by done. apply IH. simpl in Hlen. lia.
Qed.

Lemma groups_cover (blocks a : list Z) (gs : list (list Z)) :
  Forall2 (group_of blocks a) (np_unique blocks) gs →
  (length blocks ≤ length a)%nat.
Proof.
  intros Hgs. destruct (decide (length blocks ≤ length a)%nat) as [|Hlt]; [done|].
  destruct (lookup_lt_is_Some_2 blocks (length a)) as [b Hb]; [lia|].
  assert (Hin : b ∈ np_unique blocks).
  { apply elem_of_np_unique. by eapply list_elem_of_lookup_2. }
  apply list_elem_of_lookup_1 in Hin as [k Hk].
  destruct (Forall2_lookup_l _ _ _ _ _ Hgs Hk) as (g & _ & Hg).
  apply take_at_lookup in Hg.
  apply (proj2 (elem_of_where_eq blocks b (length a))) in Hb.
  apply list_elem_of_lookup_1 in Hb as [j Hj].
  destruct (Forall2_lookup_l _ _ _ _ _ Hg Hj) as (v & _ & Hv).
  apply lookup_lt_Some in Hv. lia.
Qed.

Lemma groups_labelled (blocks a : list Z) (labels : list Z) (gs : list (list Z)) :
  (length blocks ≤ length a)%nat →
  Forall2 (group_of blocks a) labels gs →
  gs = map (labelled blocks a) labels.
Proof.
  intros Hlen. induction 1 as [|b g labels gs Hg _ IH]; [done|].
  cbn [map]. f_equal; [|exact IH].
  unfold group_of in Hg.
  pose proof (take_at_labelled blocks a [] b Hlen) as Hl.
  change (take_at a (np_where (eq_scalar blocks b)) = Ok (labelled blocks a b))
    in Hl.
  rewrite Hg in Hl. by injection Hl.
Qed.

Lemma concat_insert_one {A : Type} (labels : list Z) (k : Z) (x : A)
    (F : Z → list A) :
  NoDup labels → k ∈ labels →
  concat (map (fun b => if decide (k = b) then x :: F b else F b) labels)
    ≡ₚ x :: concat (map F labels).
Proof.
  induction 1 as [|b labels Hnotin Hnodup IH]; [by intros ?%elem_of_nil|].
  intros Hk. cbn [map concat]. case_decide as Hkb.
  - subst b.
    assert (map (fun b => if decide (k = b) then x :: F b else F b) labels =
            map F labels) as ->; [|done].
    apply list_fmap_ext. intros i b Hb.
    rewrite decide_False; [done|]. intros ->.
    by apply Hnotin, (list_elem_of_lookup_2 _ i).
  - apply elem_of_cons in Hk as [->|Hk]; [done|].
    rewrite (IH Hk). by rewrite Permutation_middle.
Qed.

Lemma concat_by_label (l : list (Z * Z)) (labels : list Z) :
  NoDup labels → (∀ p, p ∈ l → fst p ∈ labels) →
  concat (map (fun b => filter (fun p : Z * Z => fst p = b) l) labels) ≡ₚ l.
Proof.
  intros Hnodup. induction l as [|p l IH]; intros Hcover.
  - clear. induction labels as [|b labels IH]; [done|]. by rewrite fmap_cons.
  - transitivity
      (p :: concat (map (fun b => filter (fun q : Z * Z => fst q = b) l) labels)).
    + rewrite <- (concat_insert_one labels (fst p) p); [|done|apply Hcover; by left].
      assert (map (fun b => filter (fun q : Z * Z => fst q = b) (p :: l)) labels =
              map (fun b => if decide (fst p = b)
                            then p :: filter (fun q : Z * Z => fst q = b) l
                            else filter (fun q : Z * Z => fst q = b) l) labels)
        as ->; [|done].
      apply list_fmap_ext. intros i b _. by rewrite filter_cons.
    + f_equiv. apply IH. intros q Hq. apply Hcover. by right.
Qed.

Lemma sorted_lt_NoDup (l : list Z) : StronglySorted Z.lt l → NoDup l.
Proof.
  induction 1 as [|x l _ IH Hlt]; constructor; [|done].
  intros Hx. eapply Forall_forall in Hlt; [|done]. lia.
Qed.

Lemma snd_zip_take (blocks a : list Z) :
  (length blocks ≤ length a)%nat →
  map snd (zip blocks a) = take (length blocks) a.
Proof.
  revert a. induction blocks as [|x blocks IH]; intros a Hlen; [done|].
  destruct a as [|v a]; [simpl in Hlen; lia|].
  simpl. f_equal. apply IH. simpl in Hlen. lia.
Qed.

Lemma concat_labelled (blocks a : list Z) (labels : list Z) :
  concat (map (labelled blocks a) labels) =
  map snd (concat (map (fun b => filter (fun p : Z * Z => fst p = b)
                                   (zip blocks a)) labels)).
Proof.
  induction labels as [|b labels IH]; [done|].
  cbn [map concat]. by rewrite IH, fmap_app.
Qed.

Lemma groups_permutation (blocks a : list Z) (gs : list (list Z)) :
  Forall2 (group_of blocks a) (np_unique blocks) gs →
  concat gs ≡ₚ take (length blocks) a.
Proof.
  intros Hgs. pose proof (groups_cover _ _ _ Hgs) as Hlen.
  rewrite (groups_labelled _ _ _ _ Hlen Hgs), <- snd_zip_take by done.
  rewrite concat_labelled, concat_by_label; [done| |].
  - apply sorted_lt_NoDup, np_unique_sorted.
  - intros [x v] Hp. apply elem_of_np_unique. simpl.
    apply list_elem_of_lookup_1 in Hp as [i Hi].
    apply lookup_zip_with_Some in Hi as (x' & v' & [= -> ->] & Hx & _).
    by eapply list_elem_of_lookup_2.
Qed.

(** When [find_events_codes] returns, the per-block lists of start
    timestamps, put end to end, are a rearrangement of the first [n] start
    timestamps, [n] being the number of trials, and so for the end
    timestamps: every trial is in the list of one block, and there are at
    least [n] start and [n] end timestamps. *)
Theorem find_events_codes_partition (START_CODE END_CODE : Z)
    (events : list event) (bhv : list bhv_entry) (out : codes) :
  find_events_codes START_CODE END_CODE events bhv = Ok out →
  let n := length (trial_entries bhv) in
  ∃ start_trials end_trials,
    bool_index (out_real_strobes out) (eq_scalar (out_full_word out) START_CODE)
      = Ok start_trials
    ∧ bool_index (out_real_strobes out) (eq_scalar (out_full_word out) END_CODE)
      = Ok end_trials
    ∧ (n ≤ length start_trials)%nat ∧ (n ≤ length end_trials)%nat
    ∧ concat (out_bl_start_trials out) ≡ₚ take n start_trials
    ∧ concat (out_bl_end_trials out) ≡ₚ take n end_trials.
Proof.
  intros (fw & log & rs & st & en & [gs ge] & (_ & _ & Hst & Hen) & _ & Hbl & ->)
    %find_events_codes_inv n.
  cbn [out_real_strobes out_full_word out_bl_start_trials out_bl_end_trials
       fst snd].
  apply block_loop_inv in Hbl as (gs' & ge' & -> & -> & Hgs & Hge).
  exists st, en. split; [done|]. split; [done|].
  pose proof (groups_cover _ _ _ Hgs) as Hs.
  pose proof (groups_cover _ _ _ Hge) as He.
  apply groups_permutation in Hgs, Hge.
  rewrite length_map in Hs, He, Hgs, Hge. by repeat split.
Qed.

Lemma find_events_codes_partition_witness :
  ∃ start_trials end_trials,
    bool_index [10; 15; 20; 25; 30; 35] (eq_scalar [9; 18; 9; 18; 9; 18] 9)
      = Ok start_trials
    ∧ bool_index [10; 15; 20; 25; 30; 35] (eq_scalar [9; 18; 9; 18; 9; 18] 18)
      = Ok end_trials
    ∧ (length (trial_entries bhv_112) ≤ length start_trials)%nat
    ∧ (length (trial_entries bhv_112) ≤ length end_trials)%nat
    ∧ concat [[10; 20]; [30]]
        ≡ₚ take (length (trial_entries bhv_112)) start_trials
    ∧ concat [[15; 25]; [35]]
        ≡ₚ take (length (trial_entries bhv_112)) end_trials.
Proof.
  apply (find_events_codes_partition 9 18 events_3 bhv_112
           {| out_full_word := [9; 18; 9; 18; 9; 18];
              out_real_strobes := [10; 15; 20; 25; 30; 35];
              out_bl_start_trials := [[10; 20]; [30]];
              out_bl_end_trials := [[15; 25]; [35]];
              out_blocks := [1; 2];
              out_log :=
                [ info "Reconstructing 8 bit words" [];
                  info "Strobe and codes number do match" [];
                  info "Strobes = %d" [6];
                  info "codes number = %d" [6];
                  info "ML and OE code numbers do match" [];
                  info "ML and OE codes are the same" [] ] |}).
  vm_compute. reflexivity.
Defined.

(** ** Calls that raise *)

Lemma take_at_raise {A : Type} (a : list A) (idx : list nat) (e : exn) :
  take_at a idx = Raise e → e = IndexError.
Proof.
  induction idx as [|i idx IH]; simpl; [done|].
  unfold getitem. destruct (a !! i); simpl; [|by intros [= <-]].
  destruct (take_at a idx); simpl; [done|]. intros [= <-]. by apply IH.
Qed.

Lemma block_body_raise (blocks start_trials end_trials : list Z) (b : Z)
    (st : list (list Z) * list (list Z)) (e : exn) :
  block_body blocks start_trials end_trials b st = Raise e → e = IndexError.
Proof.
  destruct st as [xs ys]. unfold block_body.
  destruct (take_at start_trials _) as [g1|e1] eqn:H1; simpl.
  - destruct (take_at end_trials _) as [g2|e2] eqn:H2; simpl; [done|].
    intros [= <-]. by eapply take_at_raise.
  - intros [= <-]. by eapply take_at_raise.
Qed.

Lemma for_each_only {A S : Type} (xs : list A) (body : A → S → result S)
    (s : S) (e e' : exn) :
  (∀ y s1 e1, body y s1 = Raise e1 → e1 = e) →
  for_each xs body s = Raise e' → e' = e.
Proof.
  intros Honly. revert s. induction xs as [|x xs IH]; intros s; simpl; [done|].
  destruct (body x s) as [s1|e1] eqn:Hx; simpl; [apply IH|].
  intros [= <-]. by eapply Honly.
Qed.

(** With fewer start timestamps, or fewer end timestamps, than trials, a
    call whose decoding succeeds raises [IndexError] in the block loop. *)
Theorem find_events_codes_too_few_boundaries (START_CODE END_CODE : Z)
    (events : list event) (bhv : list bhv_entry)
    (full_word real_strobes start_trials end_trials : list Z) :
  let n := length (trial_entries bhv) in
  decoded START_CODE END_CODE events full_word real_strobes start_trials end_trials →
  trial_entries bhv ≠ [] →
  (length start_trials < n)%nat ∨ (length end_trials < n)%nat →
  find_events_codes START_CODE END_CODE events bhv = Raise IndexError.
Proof.
  intros n (Hfw & Hrs & Hst & Hen) Htrials Hfew.
  destruct (check_strobes_ok bhv full_word (np_where (strobe_mask events)) Htrials)
    as [log Hlog].
  unfold find_events_codes. rewrite Hfw. cbn [mbind result_bind].
  rewrite Hlog. cbn [mbind result_bind]. rewrite Hrs. cbn [mbind result_bind].
  rewrite Hst. cbn [mbind result_bind]. rewrite Hen. cbn [mbind result_bind].
  destruct (for_each _ _ _) as [[gs ge]|e] eqn:Hbl; cbn [mbind result_bind].
  - apply block_loop_inv in Hbl as (gs' & ge' & _ & _ & Hgs & Hge).
    apply groups_cover in Hgs, Hge. rewrite length_map in Hgs, Hge.
    unfold n in Hfew. lia.
  - f_equal. eapply for_each_only; [|exact Hbl].
    intros b st e1. apply block_body_raise.
Qed.

Lemma find_events_codes_too_few_boundaries_witness :
  find_events_codes 9 18 events_2 bhv_112 = Raise IndexError.
Proof.
  apply (find_events_codes_too_few_boundaries 9 18 events_2 bhv_112
           [9; 18; 9; 18] [10; 15; 20; 25] [10; 20] [15; 25]).
  - repeat split; vm_compute; reflexivity.
  - discriminate.
  - left. simpl. lia.
Defined.

(** On an event table with bit states and a behavioural record of at most
    two entries, the first and the last key leaving no trial, the call
    raises the [ValueError] of [check_strobes]. *)
Theorem find_events_codes_no_trial (START_CODE END_CODE : Z)
    (events : list event) (bhv : list bhv_entry) :
  Forall is_bit (map state events) →
  (length bhv ≤ 2)%nat →
  find_events_codes START_CODE END_CODE events bhv = Raise ValueError.
Proof.
  intros Hbits Hbhv.
  destruct (decoded_ok START_CODE END_CODE events Hbits)
    as (fw & rs & st & en & Hfw & _).
  apply trial_entries_nil in Hbhv.
  unfold find_events_codes. rewrite Hfw. cbn [mbind result_bind].
  unfold check_strobes. by rewrite Hbhv.
Qed.

Lemma find_events_codes_no_trial_witness :
  find_events_codes 9 18 events_2 [no_trial; no_trial] = Raise ValueError.
Proof.
  apply (find_events_codes_no_trial 9 18 events_2 [no_trial; no_trial]).
  - unfold events_2. solve_bits.
  - simpl. lia.
Defined.

(** * The signal helpers: properties *)

(** ** [np.arange] with a positive step *)

Lemma arange_count (start stop step : Z) (k : nat) :
  0 < step →
  (k < Z.to_nat (- ((start - stop) / step)))%nat ↔ start + Z.of_nat k * step < stop.
Proof.
  intros Hstep.
  pose proof (Z.div_mod (start - stop) step ltac:(lia)) as Hdiv.
  pose proof (Z.mod_pos_bound (start - stop) step Hstep) as Hmod.
  split; intros Hk; nia.
Qed.

Lemma getitemZ_nonneg {A : Type} (a : list A) (i : Z) :
  0 ≤ i → getitemZ a i = getitem a (Z.to_nat i).
Proof. intros Hi. unfold getitemZ. by rewrite decide_True. Qed.

Lemma take_atZ_map {A : Type} (a : list A) (f : nat → Z) (ks : list nat) :
  (∀ k, k ∈ ks → 0 ≤ f k < Z.of_nat (length a)) →
  ∃ y, take_atZ a (map f ks) = Ok y
       ∧ Forall2 (fun k v => a !! Z.to_nat (f k) = Some v) ks y.
Proof.
  induction ks as [|k ks IH]; intros Hks.
  - exists []. split; [done|constructor].
  - destruct IH as (y & Hy & Hall); [intros k' Hk'; apply Hks; by right|].
    destruct (lookup_lt_is_Some_2 a (Z.to_nat (f k))) as [v Hv].
    { specialize (Hks k ltac:(left)). lia. }
    exists (v :: y). split; [|by constructor].
    cbn [map take_atZ]. rewrite getitemZ_nonneg by (apply Hks; left).
    unfold getitem. rewrite Hv. cbn [mbind result_bind]. by rewrite Hy.
Qed.

Lemma signal_downsample_ok {A : Type} (x : list A) (downsample idx_start : Z) :
  0 ≤ idx_start → 0 < downsample →
  ∃ y, signal_downsample x downsample idx_start = Return y
       ∧ length y =
           Z.to_nat (- ((idx_start - Z.of_nat (length x)) / downsample))
       ∧ ∀ k, y !! k = x !! Z.to_nat (idx_start + Z.of_nat k * downsample).
Proof.
  intros Hstart Hstep. unfold signal_downsample, np_arange.
  rewrite decide_False by lia. cbn [mbind outcome_bind].
  set (cnt := Z.to_nat (- ((idx_start - Z.of_nat (length x)) / downsample))).
  destruct (take_atZ_map x (fun k => idx_start + Z.of_nat k * downsample)
              (seq 0 cnt)) as (y & Hy & Hall).
  { intros k [_ Hk]%elem_of_seq. apply arange_count in Hk; [|done]. nia. }
  exists y. rewrite Hy. split; [done|].
  assert (Hlen : length y = cnt).
  { apply Forall2_length in Hall. by rewrite length_seq in Hall. }
  split; [done|]. intros k. destruct (decide (k < cnt)%nat) as [Hk|Hk].
  - destruct (Forall2_lookup_l _ _ _ k k Hall) as (v & Hv & Hx).
    { by apply lookup_seq_lt. }
    by rewrite Hv, Hx.
  - rewrite (proj2 (lookup_ge_None y k)) by lia.
    symmetry. apply lookup_ge_None.
    assert (¬ idx_start + Z.of_nat k * downsample < Z.of_nat (length x)).
    { intros Hlt. by apply arange_count in Hlt. }
    lia.
Qed.

(** ** [signal_downsample] *)

(** For a non-negative start and a positive step, [signal_downsample]
    returns the entries of [x] at the positions [idx_start],
    [idx_start + downsample], ... below the length of [x]: entry [k] of the
    result is entry [idx_start + k * downsample] of [x], and there are
    [ceil((len(x) - idx_start) / downsample)] of them. *)
Theorem signal_downsample_entries {A : Type} (x : list A)
    (downsample idx_start : Z) :
  0 ≤ idx_start → 0 < downsample →
  ∃ y, signal_downsample x downsample idx_start = Return y
       ∧ length y =
           Z.to_nat ((Z.of_nat (length x) - idx_start + downsample - 1)
                     / downsample)
       ∧ ∀ k, y !! k = x !! Z.to_nat (idx_start + Z.of_nat k * downsample).
Proof.
  intros Hstart Hstep.
  destruct (signal_downsample_ok x downsample idx_start Hstart Hstep)
    as (y & Hy & Hlen & Hk).
  exists y. split; [done|]. split; [|done]. rewrite Hlen. f_equal.
  pose proof (Z.div_mod (idx_start - Z.of_nat (length x)) downsample
                ltac:(lia)) as Hd1.
  pose proof (Z.mod_pos_bound (idx_start - Z.of_nat (length x)) downsample
                Hstep) as Hm1.
  pose proof (Z.div_mod (Z.of_nat (length x) - idx_start + downsample - 1)
                downsample ltac:(lia)) as Hd2.
  pose proof (Z.mod_pos_bound
                (Z.of_nat (length x) - idx_start + downsample - 1) downsample
                Hstep) as Hm2.
  nia.
Qed.

Lemma signal_downsample_entries_witness :
  ∃ y, signal_downsample [10; 11; 12; 13; 14; 15; 16] 3 1 = Return y
       ∧ length y = Z.to_nat ((Z.of_nat 7 - 1 + 3 - 1) / 3)
       ∧ ∀ k, y !! k =
              [10; 11; 12; 13; 14; 15; 16] !! Z.to_nat (1 + Z.of_nat k * 3).
Proof.
  apply (signal_downsample_entries [10; 11; 12; 13; 14; 15; 16] 3 1); lia.
Defined.

(** Downsampling keeps the order of the entries: a relation that holds from
    every entry of [x] to every later one holds in the result too, so
    increasing timestamps stay increasing. *)
Theorem signal_downsample_keeps_order {A : Type} (R : A → A → Prop)
    (x y : list A) (downsample idx_start : Z) :
  0 ≤ idx_start → 0 < downsample →
  (∀ i j a b, (i < j)%nat → x !! i = Some a → x !! j = Some b → R a b) →
  signal_downsample x downsample idx_start = Return y →
  ∀ i j a b, (i < j)%nat → y !! i = Some a → y !! j = Some b → R a b.
Proof.
  intros Hstart Hstep Hx Hy i j a b Hij Ha Hb.
  destruct (signal_downsample_ok x downsample idx_start Hstart Hstep)
    as (y' & Hy' & _ & Hk).
  rewrite Hy in Hy'. injection Hy' as <-. rewrite Hk in Ha, Hb.
  apply (Hx (Z.to_nat (idx_start + Z.of_nat i * downsample))
            (Z.to_nat (idx_start + Z.of_nat j * downsample)) a b);
    [nia|done|done].
Qed.

Lemma signal_downsample_keeps_order_witness :
  signal_downsample [10; 11; 12; 13; 14; 15] 3 1 = Return [11; 14] ∧ 11 < 14.
Proof.
  split; [reflexivity|].
  apply (signal_downsample_keeps_order Z.lt [10; 11; 12; 13; 14; 15] [11; 14] 3 1
           ltac:(lia) ltac:(lia)) with (i := 0%nat) (j := 1%nat).
  - intros i j a b Hij Ha Hb.
    apply (sorted_lookup_lt [10; 11; 12; 13; 14; 15] i j a b);
      [repeat constructor; lia|done|done|done].
  - reflexivity.
  - lia.
  - reflexivity.
  - reflexivity.
Defined.

(** ** [select_timestamps] *)

Lemma where_from_head (k : nat) (mask : list bool) :
  match where_from k mask with
  | i :: _ =>
      (k ≤ i)%nat ∧ mask !! (i - k)%nat = Some true
      ∧ ∀ j, (k ≤ j < i)%nat → mask !! (j - k)%nat ≠ Some true
  | [] => ∀ j, mask !! j ≠ Some true
  end.
Proof.
  revert k. induction mask as [|b mask IH]; intros k; [done|].
  cbn [where_from]. destruct b.
  - split; [lia|]. rewrite Nat.sub_diag. split; [done|]. intros j Hj. lia.
  - specialize (IH (S k)). destruct (where_from (S k) mask) as [|i rest].
    + intros [|j]; [done|]. apply IH.
    + destruct IH as (Hki & Hi & Hbefore). split; [lia|].
      replace (i - k)%nat with (S (i - S k)) by lia. split; [done|].
      intros j Hj. destruct (decide (j = k)) as [->|Hne].
      * by rewrite Nat.sub_diag.
      * replace (j - k)%nat with (S (j - S k)) by lia. apply Hbefore. lia.
Qed.


Lemma eq_scalar_lookup (a : list Z) (c : Z) (i : nat) :
  eq_scalar a c !! i = Some true ↔ a !! i = Some c.
Proof.
  unfold eq_scalar. rewrite list_lookup_fmap.
  destruct (a !! i) as [x|]; simpl; [|done].
  destruct (Z.eqb_spec x c) as [->|Hne]; [done|].
  split; [done|]. intros [= ?]. done.
Qed.

Lemma first_position_where (c_timestamps : list Z) (e0 : Z) (i0 : nat) :
  first_position c_timestamps e0 i0 →
  match np_where (eq_scalar c_timestamps e0) with
  | i :: _ => Z.of_nat i
  | [] => 0
  end = Z.of_nat i0.
Proof.
  intros Hfirst. unfold np_where.
  pose proof (where_from_head 0 (eq_scalar c_timestamps e0)) as Hhead.
  destruct (where_from 0 (eq_scalar c_timestamps e0)) as [|i rest].
  - destruct Hfirst as [[Hi0 _]|[-> _]]; [|done].
    by apply eq_scalar_lookup, Hhead in Hi0.
  - destruct Hhead as (_ & Hi & Hbefore).
    rewrite Nat.sub_0_r in Hi. apply eq_scalar_lookup in Hi.
    destruct Hfirst as [[Hi0 Hbefore0]|[_ Hnone]]; [|by apply Hnone in Hi].
    f_equal. destruct (Nat.lt_trichotomy i i0) as [Hlt|[->|Hgt]]; [|done|].
    + by apply Hbefore0 in Hlt.
    + specialize (Hbefore i0 ltac:(lia)). rewrite Nat.sub_0_r in Hbefore.
      by apply eq_scalar_lookup in Hi0.
Qed.

Lemma first_position_exists (c_timestamps : list Z) (e0 : Z) (i0 : nat) :
  c_timestamps !! i0 = Some e0 →
  ∃ i1, (i1 ≤ i0)%nat ∧ first_position c_timestamps e0 i1
        ∧ c_timestamps !! i1 = Some e0.
Proof.
  intros Hi0.
  pose proof (where_from_head 0 (eq_scalar c_timestamps e0)) as Hhead.
  destruct (where_from 0 (eq_scalar c_timestamps e0)) as [|i1 rest].
  - by apply eq_scalar_lookup, Hhead in Hi0.
  - destruct Hhead as (_ & Hi1 & Hbefore). rewrite Nat.sub_0_r in Hi1.
    apply eq_scalar_lookup in Hi1.
    assert (Hfirst : ∀ j, (j < i1)%nat → c_timestamps !! j ≠ Some e0).
    { intros j Hj Hcj. apply (Hbefore j); [lia|].
      rewrite Nat.sub_0_r. by apply eq_scalar_lookup. }
    exists i1. split; [|split; [by left|done]].
    destruct (decide (i1 ≤ i0)%nat) as [|Hgt]; [done|].
    by apply (Hfirst i0) in Hi0; [|lia].
Qed.

Lemma select_timestamps_window_aux
    (c_timestamps e_timestamps idx_spiketimes : list Z)
    (fs t_before_event downsample : Z) (e0 : Z) (i0 : nat) (spikes : list Z) :
  e_timestamps !! 0%nat = Some e0 →
  first_position c_timestamps e0 i0 →
  0 < downsample →
  take_atZ c_timestamps idx_spiketimes = Ok spikes →
  let start := Z.max 0 (Z.of_nat i0 - fs * t_before_event) in
  ∃ filtered,
    select_timestamps c_timestamps e_timestamps idx_spiketimes fs t_before_event
      downsample = Return (filtered, start, spikes)
    ∧ ∀ k, filtered !! k =
           c_timestamps !! Z.to_nat (start + Z.of_nat k * downsample).
Proof.
  intros He Hfirst Hstep Hspikes start.
  destruct (signal_downsample_ok c_timestamps downsample start)
    as (filtered & Hf & _ & Hk); [lia|done|].
  exists filtered. split; [|done].
  unfold select_timestamps. rewrite He. cbn [mbind outcome_bind].
  rewrite (first_position_where _ _ _ Hfirst).
  assert ((if decide (Z.of_nat i0 - fs * t_before_event > 0)
           then Z.of_nat i0 - fs * t_before_event else 0) = start) as ->.
  { unfold start. case_decide; lia. }
  rewrite Hf. cbn [mbind outcome_bind]. rewrite Hspikes. done.
Qed.


(** With a first event, a positive step and spike positions inside
    [c_timestamps], [select_timestamps] returns; the window starts
    [fs * t_before_event] samples before the first position of the first
    event timestamp (before position 0 when the timestamp does not occur),
    but not before position 0, and the filtered timestamps are every
    [downsample]-th timestamp from there. *)
Theorem select_timestamps_window
    (c_timestamps e_timestamps idx_spiketimes : list Z)
    (fs t_before_event downsample : Z) (e0 : Z) (i0 : nat) (spikes : list Z) :
  e_timestamps !! 0%nat = Some e0 →
  first_position c_timestamps e0 i0 →
  0 < downsample →
  take_atZ c_timestamps idx_spiketimes = Ok spikes →
  let start := Z.max 0 (Z.of_nat i0 - fs * t_before_event) in
  ∃ filtered,
    select_timestamps c_timestamps e_timestamps idx_spiketimes fs t_before_event
      downsample = Return (filtered, start, spikes)
    ∧ ∀ k, filtered !! k =
           c_timestamps !! Z.to_nat (start + Z.of_nat k * downsample).
Proof.
  intros He Hfirst Hstep Hspikes.
  by apply (select_timestamps_window_aux _ _ _ _ _ _ e0).
Qed.

Lemma select_timestamps_window_witness :
  ∃ filtered,
    select_timestamps [100; 101; 102; 103; 104; 105; 106; 107] [105; 107]
      [1; 6] 1 3 2 = Return (filtered, Z.max 0 (Z.of_nat 5 - 1 * 3), [101; 106])
    ∧ ∀ k, filtered !! k =
           [100; 101; 102; 103; 104; 105; 106; 107]
             !! Z.to_nat (Z.max 0 (Z.of_nat 5 - 1 * 3) + Z.of_nat k * 2).
Proof.
  apply (select_timestamps_window [100; 101; 102; 103; 104; 105; 106; 107]
           [105; 107] [1; 6] 1 3 2 105 5 [101; 106]).
  - reflexivity.
  - left. split; [reflexivity|]. intros j Hj.
    do 5 (destruct j as [|j]; [discriminate|]). lia.
  - lia.
  - reflexivity.
Defined.

(** With ascending continuous timestamps, a first event that occurs among
    them and a non-negative [fs * t_before_event], the first filtered
    timestamp is not after the first event. *)
Theorem select_timestamps_starts_before_event
    (c_timestamps e_timestamps idx_spiketimes : list Z)
    (fs t_before_event downsample : Z) (e0 : Z) (i0 : nat) (spikes : list Z) :
  e_timestamps !! 0%nat = Some e0 →
  c_timestamps !! i0 = Some e0 →
  (∀ i j a b, (i ≤ j)%nat →
     c_timestamps !! i = Some a → c_timestamps !! j = Some b → a ≤ b) →
  0 ≤ fs * t_before_event →
  0 < downsample →
  take_atZ c_timestamps idx_spiketimes = Ok spikes →
  ∃ filtered start t0,
    select_timestamps c_timestamps e_timestamps idx_spiketimes fs t_before_event
      downsample = Return (filtered, start, spikes)
    ∧ 0 ≤ start ≤ Z.of_nat i0
    ∧ filtered !! 0%nat = Some t0 ∧ t0 ≤ e0.
Proof.
  intros He Hi0 Hsorted Hfs Hstep Hspikes.
  destruct (first_position_exists c_timestamps e0 i0 Hi0)
    as (i1 & Hle & Hfirst & Hi1).
  destruct (select_timestamps_window_aux c_timestamps e_timestamps idx_spiketimes
              fs t_before_event downsample e0 i1 spikes He Hfirst Hstep Hspikes)
    as (filtered & Hsel & Hk).
  set (start := Z.max 0 (Z.of_nat i1 - fs * t_before_event)) in *.
  destruct (lookup_lt_is_Some_2 c_timestamps (Z.to_nat start)) as [t0 Ht0].
  { apply lookup_lt_Some in Hi1. lia. }
  exists filtered, start, t0. split; [done|]. split; [lia|].
  split; [rewrite Hk; by replace (start + Z.of_nat 0 * downsample) with start by lia|].
  apply (Hsorted (Z.to_nat start) i1); [lia|done|done].
Qed.

Lemma select_timestamps_starts_before_event_witness :
  ∃ filtered start t0,
    select_timestamps [100; 101; 102; 103; 104; 105; 106; 107] [105; 107]
      [1; 6] 1 3 2 = Return (filtered, start, [101; 106])
    ∧ 0 ≤ start ≤ Z.of_nat 5
    ∧ filtered !! 0%nat = Some t0 ∧ t0 ≤ 105.
Proof.
  apply (select_timestamps_starts_before_event
           [100; 101; 102; 103; 104; 105; 106; 107] [105; 107] [1; 6] 1 3 2
           105 5 [101; 106]).
  - reflexivity.
  - reflexivity.
  - intros i j a b Hij Ha Hb. destruct (decide (i = j)) as [->|Hne].
    + rewrite Ha in Hb. injection Hb. lia.
    + apply Z.lt_le_incl.
      apply (sorted_lookup_lt [100; 101; 102; 103; 104; 105; 106; 107] i j a b);
        [repeat constructor; lia|lia|done|done].
  - lia.
  - lia.
  - reflexivity.
Defined.



(** ** [butter_lowpass_filter]: the shape of the result *)

Section FilterProperties.

Context {A : Type}.
Variable zero : A.
Variable lfilter : list A → list A.

(** [lfilter] returns an array of the shape of its input. *)
Hypothesis lfilter_length : ∀ x, length (lfilter x) = length x.

Variable data : array2 A.
Hypothesis data_shape : well_shaped data.

Variable downsample : Z.
Hypothesis downsample_pos : 0 < downsample.

Local Abbreviation fcol := (filtered_column zero lfilter data downsample).


Lemma filtered_column_ok (i : nat) :
  signal_downsample (lfilter (column zero data i)) downsample 0 =
    Return (fcol i)
  ∧ length (fcol i) =
      Z.to_nat (- ((0 - Z.of_nat (shape0 data)) / downsample))
  ∧ ∀ k, fcol i !! k =
         lfilter (column zero data i) !! Z.to_nat (Z.of_nat k * downsample).
Proof.
  unfold filtered_column.
  destruct (signal_downsample_ok (lfilter (column zero data i)) downsample 0)
    as (v & -> & Hlen & Hk); [done|done|].
  split; [done|]. split.
  - rewrite Hlen, lfilter_length. unfold column.
    by rewrite length_map, (proj1 data_shape).
  - intros k. by rewrite Hk.
Qed.

Lemma filter_body_ok (w : list A) (i : nat) (done_rows rest : list (list A))
    (zrow : list A) :
  length done_rows = i →
  assign_row zrow (fcol i) = Ok w →
  filter_body zero lfilter data downsample i (done_rows ++ zrow :: rest) =
    Return (done_rows ++ w :: rest).
Proof.
  intros Hi Hassign. unfold filter_body.
  destruct (filtered_column_ok i) as (-> & _). cbn [mbind outcome_bind].
  unfold getitem. rewrite list_lookup_middle by done.
  cbn [lift mbind outcome_bind]. rewrite Hassign. cbn [lift mbind outcome_bind].
  unfold setitem. rewrite decide_True by (rewrite length_app; simpl; lia).
  cbn [lift]. rewrite insert_app_r_alt by lia.
  by rewrite Hi, Nat.sub_diag.
Qed.

Lemma filter_loop (w : nat → list A) (zrow : list A) (k j : nat)
    (y : list (list A)) :
  (∀ i, assign_row zrow (fcol i) = Ok (w i)) →
  y = map w (seq 0 j) ++ replicate k zrow →
  for_each_o (seq j k) (filter_body zero lfilter data downsample) y =
    Return (map w (seq 0 (j + k))).
Proof.
  intros Hassign. revert j y. induction k as [|k IH]; intros j y ->.
  - by rewrite Nat.add_0_r, app_nil_r.
  - cbn [seq for_each_o replicate].
    rewrite (filter_body_ok (w j)); [|by rewrite length_map, length_seq|done].
    cbn [mbind outcome_bind].
    rewrite (IH (S j)); [by rewrite Nat.add_succ_r|].
    by rewrite seq_S, map_app, <- app_assoc.
Qed.

Lemma butter_unfold :
  0 ≤ Z.of_nat (shape0 data) / downsample + 1 →
  butter_lowpass_filter zero lfilter data downsample =
    for_each_o (seq 0 (shape1 data)) (filter_body zero lfilter data downsample)
      (replicate (shape1 data)
         (replicate (Z.to_nat (Z.of_nat (shape0 data) / downsample + 1)) zero)).
Proof.
  intros Hwidth. unfold butter_lowpass_filter.
  rewrite decide_False by lia. by rewrite decide_False by lia.
Qed.

Lemma width_nonneg : 0 ≤ Z.of_nat (shape0 data) / downsample.
Proof. apply Z.div_pos; lia. Qed.

Lemma butter_rows_aux :
  Z.of_nat (shape0 data) mod downsample ≠ 0 →
  ∃ y,
    butter_lowpass_filter zero lfilter data downsample = Return y
    ∧ length y = shape1 data
    ∧ ∀ i, (i < shape1 data)%nat →
        ∃ row,
          y !! i = Some row
          ∧ length row = Z.to_nat (Z.of_nat (shape0 data) / downsample + 1)
          ∧ ∀ k, row !! k =
                 lfilter (column zero data i)
                   !! Z.to_nat (Z.of_nat k * downsample).
Proof.
  intros Hmod. pose proof width_nonneg as Hw.
  set (n := Z.of_nat (shape0 data)) in *.
  assert (Hlen : ∀ i, length (fcol i) = Z.to_nat (n / downsample + 1)).
  { intros i. destruct (filtered_column_ok i) as (_ & -> & _). f_equal.
    fold n. pose proof (Z.div_mod n downsample ltac:(lia)) as Hd.
    pose proof (Z.mod_pos_bound n downsample downsample_pos) as Hm.
    pose proof (Z.div_mod (0 - n) downsample ltac:(lia)) as Hd'.
    pose proof (Z.mod_pos_bound (0 - n) downsample downsample_pos) as Hm'.
    nia. }
  exists (map fcol (seq 0 (shape1 data))).
  split; [|split].
  - rewrite butter_unfold by (fold n; lia).
    rewrite (filter_loop fcol
               (replicate (Z.to_nat (n / downsample + 1)) zero)
               (shape1 data) 0); [done| |done].
    intros i. unfold assign_row.
    by rewrite decide_True by by rewrite Hlen, length_replicate.
  - by rewrite length_map, length_seq.
  - intros i Hi. exists (fcol i).
    split; [by rewrite list_lookup_fmap, lookup_seq_lt|].
    split; [apply Hlen|]. by destruct (filtered_column_ok i) as (_ & _ & Hk).
Qed.

(** When the number of rows of [data] is not a multiple of [downsample],
    [butter_lowpass_filter] returns one row for each column of [data]: the
    filtered column at every [downsample]-th position, of length
    [floor(data.shape[0] / downsample) + 1]. *)
Theorem butter_lowpass_filter_rows :
  Z.of_nat (shape0 data) mod downsample ≠ 0 →
  ∃ y,
    butter_lowpass_filter zero lfilter data downsample = Return y
    ∧ length y = shape1 data
    ∧ ∀ i, (i < shape1 data)%nat →
        ∃ row,
          y !! i = Some row
          ∧ length row = Z.to_nat (Z.of_nat (shape0 data) / downsample + 1)
          ∧ ∀ k, row !! k =
                 lfilter (column zero data i)
                   !! Z.to_nat (Z.of_nat k * downsample).
Proof. exact butter_rows_aux. Qed.

Lemma butter_multiple_aux :
  (0 < shape1 data)%nat →
  downsample < Z.of_nat (shape0 data) →
  Z.of_nat (shape0 data) mod downsample = 0 →
  butter_lowpass_filter zero lfilter data downsample = Fail (Builtin ValueError).
Proof.
  intros Hcols Hlt Hmod. pose proof width_nonneg as Hw.
  set (n := Z.of_nat (shape0 data)) in *.
  pose proof (Z.div_mod n downsample ltac:(lia)) as Hd.
  rewrite butter_unfold by (fold n; lia). fold n.
  destruct (shape1 data) as [|m]; [lia|].
  cbn [seq replicate].
  set (zrow := replicate (Z.to_nat (n / downsample + 1)) zero).
  assert (Hbody : ∀ rest,
            filter_body zero lfilter data downsample 0 (zrow :: rest) =
              Fail (Builtin ValueError)); [|cbn [for_each_o]; by rewrite Hbody].
  intros rest. unfold filter_body.
  destruct (filtered_column_ok 0) as (-> & Hlen & _). fold n in Hlen.
  cbn [mbind outcome_bind getitem lookup list_lookup lift].
  assert (Hv : length (fcol 0) = Z.to_nat (n / downsample)).
  { rewrite Hlen. f_equal.
    pose proof (Z.div_mod (0 - n) downsample ltac:(lia)) as Hd'.
    pose proof (Z.mod_pos_bound (0 - n) downsample downsample_pos) as Hm'.
    nia. }
  assert (2 ≤ n / downsample) by nia.
  unfold assign_row, zrow. rewrite length_replicate, decide_False by lia.
  destruct (fcol 0) as [|x [|x' v]]; simpl in Hv; try lia; done.
Qed.

(** When the number of rows of [data] is a multiple of [downsample] and
    more than [downsample], and [data] has a column, the call raises
    [ValueError]: a filtered column gives one value fewer than a row of [y]
    holds. *)
Theorem butter_lowpass_filter_multiple :
  (0 < shape1 data)%nat →
  downsample < Z.of_nat (shape0 data) →
  Z.of_nat (shape0 data) mod downsample = 0 →
  butter_lowpass_filter zero lfilter data downsample = Fail (Builtin ValueError).
Proof. exact butter_multiple_aux. Qed.

(** When [data] has exactly [downsample] rows, the one value of a filtered
    column is broadcast over the two entries of its row. *)
Theorem butter_lowpass_filter_broadcast :
  Z.of_nat (shape0 data) = downsample →
  ∃ y,
    butter_lowpass_filter zero lfilter data downsample = Return y
    ∧ length y = shape1 data
    ∧ ∀ i, (i < shape1 data)%nat →
        ∃ x, lfilter (column zero data i) !! 0%nat = Some x
             ∧ y !! i = Some [x; x].
Proof.
  intros Hn. pose proof width_nonneg as Hw.
  assert (Hwidth : Z.of_nat (shape0 data) / downsample + 1 = 2).
  { rewrite Hn, Z.div_same by lia. done. }
  assert (Hone : ∀ i, ∃ x, fcol i = [x]
                          ∧ lfilter (column zero data i) !! 0%nat = Some x).
  { intros i. destruct (filtered_column_ok i) as (_ & Hlen & Hk).
    assert (length (fcol i) = 1%nat) as Hl.
    { rewrite Hlen, Hn.
      pose proof (Z.div_mod (0 - downsample) downsample ltac:(lia)) as Hd.
      pose proof (Z.mod_pos_bound (0 - downsample) downsample downsample_pos)
        as Hm.
      assert ((0 - downsample) / downsample = -1) as -> by nia. done. }
    destruct (fcol i) as [|x [|x' v]] eqn:Hv; try done.
    exists x. split; [done|]. specialize (Hk 0%nat).
    change (Z.to_nat (Z.of_nat 0 * downsample)) with 0%nat in Hk.
    by rewrite <- Hk. }
  set (w := fun i => match fcol i with
                     | x :: _ => [x; x]
                     | [] => []
                     end).
  exists (map w (seq 0 (shape1 data))).
  split; [|split].
  - rewrite butter_unfold by lia. rewrite Hwidth.
    rewrite (filter_loop w (replicate (Z.to_nat 2) zero) (shape1 data) 0);
      [done| |done].
    intros i. destruct (Hone i) as (x & Hx & _). unfold assign_row, w.
    rewrite Hx. by rewrite decide_False by (simpl; lia).
  - by rewrite length_map, length_seq.
  - intros i Hi. destruct (Hone i) as (x & Hx & Hf). exists x.
    split; [done|]. rewrite list_lookup_fmap, lookup_seq_lt by done.
    cbn [fmap option_fmap option_map Nat.add]. unfold w. by rewrite Hx.
Qed.

End FilterProperties.

Lemma double_samples_length (x : list Z) : length (double_samples x) = length x.
Proof. apply length_map. Qed.

Lemma samples_5x2_shape : well_shaped samples_5x2.
Proof. split; [reflexivity|]. by repeat constructor. Qed.

Lemma samples_4x2_shape : well_shaped samples_4x2.
Proof. split; [reflexivity|]. by repeat constructor. Qed.

Lemma samples_2x2_shape : well_shaped samples_2x2.
Proof. split; [reflexivity|]. by repeat constructor. Qed.

Example butter_5x2 :
  butter_lowpass_filter 0 double_samples samples_5x2 2 =
    Return [[2; 6; 10]; [20; 60; 100]].
Proof. vm_compute. reflexivity. Qed.

Lemma butter_lowpass_filter_rows_witness :
  ∃ y,
    butter_lowpass_filter 0 double_samples samples_5x2 2 = Return y
    ∧ length y = shape1 samples_5x2
    ∧ ∀ i, (i < shape1 samples_5x2)%nat →
        ∃ row,
          y !! i = Some row
          ∧ length row = Z.to_nat (Z.of_nat (shape0 samples_5x2) / 2 + 1)
          ∧ ∀ k, row !! k =
                 double_samples (column 0 samples_5x2 i)
                   !! Z.to_nat (Z.of_nat k * 2).
Proof.
  apply (butter_lowpass_filter_rows 0 double_samples double_samples_length
           samples_5x2 samples_5x2_shape 2).
  - lia.
  - vm_compute. discriminate.
Defined.

Lemma butter_lowpass_filter_multiple_witness :
  butter_lowpass_filter 0 double_samples samples_4x2 2 =
    Fail (Builtin ValueError).
Proof.
  apply (butter_lowpass_filter_multiple 0 double_samples double_samples_length
           samples_4x2 samples_4x2_shape 2).
  - lia.
  - simpl. lia.
  - simpl. lia.
  - reflexivity.
Defined.

Lemma butter_lowpass_filter_broadcast_witness :
  ∃ y,
    butter_lowpass_filter 0 double_samples samples_2x2 2 = Return y
    ∧ length y = shape1 samples_2x2
    ∧ ∀ i, (i < shape1 samples_2x2)%nat →
        ∃ x, double_samples (column 0 samples_2x2 i) !! 0%nat = Some x
             ∧ y !! i = Some [x; x].
Proof.
  apply (butter_lowpass_filter_broadcast 0 double_samples double_samples_length
           samples_2x2 samples_2x2_shape 2).
  - lia.
  - reflexivity.
Defined.

Example compute_lfp_5x3 :
  compute_lfp 0 double_samples 2 samples_5x3 0 =
    Return ([[2; 6; 10]],
            {| shape0 := 2; shape1 := 3;
               rows := [[10; 20; 30]; [300; 400; 500]] |}).
Proof. vm_compute. reflexivity. Qed.

(** ** [compute_lfp]: the eye channels *)

Lemma concat_pairs_length {A : Type} (l : list (list A)) :
  Forall (fun r => length r = 2%nat) l → length (concat l) = (2 * length l)%nat.
Proof.
  induction 1 as [|r l Hr _ IH]; [done|].
  cbn [concat length]. rewrite length_app, Hr, IH. lia.
Qed.

Lemma concat_pairs_lookup {A : Type} (l : list (list A)) (j : nat) :
  Forall (fun r => length r = 2%nat) l →
  concat l !! j = l !! (j / 2)%nat ≫= fun r => r !! (j mod 2)%nat.
Proof.
  intros Hl. revert j. induction Hl as [|r l Hr _ IH]; intros j; [done|].
  destruct r as [|a [|b [|c r]]]; try discriminate Hr.
  destruct j as [|[|j]]; [done|done|].
  replace (S (S j)) with (j + 1 * 2)%nat by lia.
  rewrite Nat.div_add, Nat.Div0.mod_add by lia.
  replace (j / 2 + 1)%nat with (S (j / 2)) by lia.
  replace (j + 1 * 2)%nat with (S (S j)) by lia. apply IH.
Qed.

Lemma take_atZ_arange {A : Type} (row : list A) (step : Z) :
  0 < step →
  ∃ y,
    take_atZ row
      (map (fun k => 0 + Z.of_nat k * step)
         (seq 0 (Z.to_nat (- ((0 - Z.of_nat (length row)) / step))))) = Ok y
    ∧ ∀ k, y !! k = row !! Z.to_nat (Z.of_nat k * step).
Proof.
  intros Hstep.
  destruct (signal_downsample_ok row step 0) as (y & Hy & _ & Hk); [done|done|].
  exists y. split; [|done].
  unfold signal_downsample, np_arange in Hy.
  rewrite decide_False in Hy by lia. cbn [mbind outcome_bind] in Hy.
  destruct (take_atZ row _) as [y'|]; [|done]. by injection Hy as ->.
Qed.

Lemma arange_in_bounds (n step : Z) :
  0 < step → 0 ≤ n →
  forallb (fun i => (- n <=? i) && (i <? n))
    (map (fun k => 0 + Z.of_nat k * step)
       (seq 0 (Z.to_nat (- ((0 - n) / step))))) = true.
Proof.
  intros Hstep Hn. apply forallb_forall. intros i Hi.
  apply in_map_iff in Hi as (k & <- & Hk). apply in_seq in Hk.
  destruct Hk as [_ Hk]. apply (arange_count 0 n step k Hstep) in Hk. lia.
Qed.

Section LfpProperties.

Context {A : Type}.
Variable zero : A.
Variable lfilter : list A → list A.

Variable c_samples : array2 A.
Hypothesis c_samples_shape : well_shaped c_samples.
Hypothesis two_eye_columns : (2 ≤ shape1 c_samples)%nat.

Variable start_time : Z.
Hypothesis start_time_nonneg : 0 ≤ start_time.

Variable DOWNSAMPLE : Z.
Hypothesis DOWNSAMPLE_pos : 0 < DOWNSAMPLE.

Local Abbreviation erows := (eye_rows c_samples start_time).
Local Abbreviation eflat := (eye_flat c_samples start_time).
Local Abbreviation nleft := (rows_left c_samples start_time).

(** [lfilter] returns an array of the shape of its input. *)
Hypothesis lfilter_keeps_length : ∀ x, length (lfilter x) = length x.

(** [c_samples[start_time:, :-2]]. *)
Local Abbreviation lfp_in :=
  {| shape0 := length (drop (Z.to_nat start_time) (rows c_samples));
     shape1 := shape1 c_samples - 2;
     rows := map (take (shape1 c_samples - 2))
               (drop (Z.to_nat start_time) (rows c_samples)) |}.


Lemma eye_rows_pairs : Forall (fun r => length r = 2%nat) erows.
Proof.
  unfold eye_rows. apply Forall_fmap, Forall_drop.
  eapply Forall_impl; [apply (proj2 c_samples_shape)|].
  intros r Hr. simpl in *. rewrite length_drop, Hr.
  pose proof two_eye_columns. lia.
Qed.

Lemma length_eye_rows : length erows = nleft.
Proof.
  unfold eye_rows, rows_left.
  by rewrite length_map, length_drop, (proj1 c_samples_shape).
Qed.

Lemma length_eye_flat : length eflat = (2 * nleft)%nat.
Proof.
  unfold eye_flat. by rewrite concat_pairs_length, length_eye_rows
    by apply eye_rows_pairs.
Qed.

Lemma eye_flat_lookup (j : nat) :
  eflat !! j =
    rows c_samples !! (Z.to_nat start_time + j / 2)%nat
      ≫= fun r => r !! (shape1 c_samples - 2 + j mod 2)%nat.
Proof.
  unfold eye_flat. rewrite concat_pairs_lookup by apply eye_rows_pairs.
  unfold eye_rows. rewrite list_lookup_fmap, lookup_drop.
  destruct (rows c_samples !! _) as [r|]; [|done]. simpl.
  apply lookup_drop.
Qed.

Lemma compute_lfp_eyes_aux (LFP_ds : list (list A)) (eyes_ds : array2 A) :
  compute_lfp zero lfilter DOWNSAMPLE c_samples start_time =
    Return (LFP_ds, eyes_ds) →
  ∃ y0 y1,
    rows eyes_ds = [y0; y1] ∧ shape0 eyes_ds = 2%nat
    ∧ (∀ k, y0 !! k = take nleft eflat !! Z.to_nat (Z.of_nat k * DOWNSAMPLE))
    ∧ (∀ k, y1 !! k = drop nleft eflat !! Z.to_nat (Z.of_nat k * DOWNSAMPLE)).
Proof.
  unfold compute_lfp, slice_from. rewrite decide_True by done.
  destruct (butter_lowpass_filter _ _ _ _) as [lfp|]; [|done].
  cbn [mbind outcome_bind]. unfold reshape_2. cbn [rows].
  fold erows. fold eflat. rewrite length_eye_flat.
  replace (2 * nleft)%nat with (nleft * 2)%nat by lia.
  rewrite Nat.Div0.mod_mul, Nat.div_mul by lia.
  rewrite decide_True by done. cbn [lift mbind outcome_bind].
  unfold signal_downsample_axis1, np_arange. cbn [shape1 shape0 rows].
  rewrite decide_False by lia. cbn [mbind outcome_bind].
  rewrite arange_in_bounds by lia.
  assert (Hl0 : length (take nleft eflat) = nleft).
  { rewrite length_take, length_eye_flat. lia. }
  assert (Hl1 : length (drop nleft eflat) = nleft).
  { rewrite length_drop, length_eye_flat. lia. }
  destruct (take_atZ_arange (take nleft eflat) DOWNSAMPLE DOWNSAMPLE_pos)
    as (y0 & Hy0 & Hk0).
  destruct (take_atZ_arange (drop nleft eflat) DOWNSAMPLE DOWNSAMPLE_pos)
    as (y1 & Hy1 & Hk1).
  rewrite Hl0 in Hy0. rewrite Hl1 in Hy1.
  cbn [map_rows]. rewrite Hy0. cbn [mbind result_bind]. rewrite Hy1.
  cbn [mbind result_bind lift outcome_bind].
  intros [= <- <-]. by exists y0, y1.
Qed.

(** When [compute_lfp] returns, the eye array has two rows: the last two
    columns are read in row-major order, cut in two halves, and each half
    is downsampled. Entry [k] of row [r] is entry [j] of that order, for
    [j = r * n + k * DOWNSAMPLE] and [n] rows from [start_time] on: the
    sample at row [start_time + j // 2], column [shape1 - 2 + j % 2]. *)
Theorem compute_lfp_eyes (LFP_ds : list (list A)) (eyes_ds : array2 A) :
  compute_lfp zero lfilter DOWNSAMPLE c_samples start_time =
    Return (LFP_ds, eyes_ds) →
  shape0 eyes_ds = 2%nat
  ∧ ∀ r k, (r < 2)%nat → Z.of_nat k * DOWNSAMPLE < Z.of_nat nleft →
      let j := (r * nleft + Z.to_nat (Z.of_nat k * DOWNSAMPLE))%nat in
      ∃ row v,
        rows eyes_ds !! r = Some row ∧ row !! k = Some v
        ∧ rows c_samples !! (Z.to_nat start_time + j / 2)%nat
            ≫= (fun s => s !! (shape1 c_samples - 2 + j mod 2)%nat) = Some v.
Proof.
  intros (y0 & y1 & Hrows & Hshape & Hk0 & Hk1)%compute_lfp_eyes_aux.
  split; [done|]. intros r k Hr Hk j. rewrite Hrows.
  assert (Hj : (j < 2 * nleft)%nat) by (unfold j; nia).
  destruct (lookup_lt_is_Some_2 eflat j) as [v Hv];
    [by rewrite length_eye_flat|].
  rewrite <- eye_flat_lookup, Hv.
  destruct r as [|[|r]]; [| |lia].
  - exists y0, v. split; [done|]. split; [|done].
    rewrite Hk0, lookup_take_lt by lia. by rewrite <- Hv.
  - exists y1, v. split; [done|]. split; [|done].
    rewrite Hk1, lookup_drop, <- Hv. f_equal. unfold j. lia.
Qed.

(** ** [compute_lfp]: the filtered channels *)

Lemma lfp_in_shape : well_shaped lfp_in.
Proof.
  split; cbn [rows shape0 shape1]; [by rewrite length_map|].
  apply Forall_fmap, Forall_drop.
  eapply Forall_impl; [apply (proj2 c_samples_shape)|].
  intros r Hr. simpl in *. rewrite length_take, Hr. lia.
Qed.

Lemma lfp_in_rows : Z.of_nat (shape0 lfp_in) = Z.of_nat nleft.
Proof.
  cbn [shape0]. unfold rows_left.
  by rewrite length_drop, (proj1 c_samples_shape).
Qed.

Lemma lfp_in_column (i : nat) :
  (i < shape1 c_samples - 2)%nat →
  column zero lfp_in i = drop (Z.to_nat start_time) (column zero c_samples i).
Proof.
  intros Hi. unfold column. cbn [rows].
  rewrite map_map.
  change (drop (Z.to_nat start_time)
            (map (fun r => default zero (r !! i)) (rows c_samples)))
    with (drop (Z.to_nat start_time)
            ((fun r => default zero (r !! i)) <$> rows c_samples)).
  rewrite <- fmap_drop. apply map_ext.
  intros r. by rewrite lookup_take_lt.
Qed.

Lemma compute_lfp_after_filter (lfp : list (list A)) :
  butter_lowpass_filter zero lfilter lfp_in DOWNSAMPLE = Return lfp →
  ∃ eyes_ds,
    compute_lfp zero lfilter DOWNSAMPLE c_samples start_time =
      Return (lfp, eyes_ds).
Proof.
  intros Hlfp. unfold compute_lfp, slice_from. rewrite decide_True by done.
  rewrite Hlfp.
  cbn [mbind outcome_bind]. unfold reshape_2. cbn [rows].
  fold erows. fold eflat. rewrite length_eye_flat.
  replace (2 * nleft)%nat with (nleft * 2)%nat by lia.
  rewrite Nat.Div0.mod_mul, Nat.div_mul by lia.
  rewrite decide_True by done. cbn [lift mbind outcome_bind].
  unfold signal_downsample_axis1, np_arange. cbn [shape1 shape0 rows].
  rewrite decide_False by lia. cbn [mbind outcome_bind].
  rewrite arange_in_bounds by lia.
  assert (Hl0 : length (take nleft eflat) = nleft).
  { rewrite length_take, length_eye_flat. lia. }
  assert (Hl1 : length (drop nleft eflat) = nleft).
  { rewrite length_drop, length_eye_flat. lia. }
  destruct (take_atZ_arange (take nleft eflat) DOWNSAMPLE DOWNSAMPLE_pos)
    as (y0 & Hy0 & _).
  destruct (take_atZ_arange (drop nleft eflat) DOWNSAMPLE DOWNSAMPLE_pos)
    as (y1 & Hy1 & _).
  rewrite Hl0 in Hy0. rewrite Hl1 in Hy1.
  cbn [map_rows]. rewrite Hy0. cbn [mbind result_bind]. rewrite Hy1.
  cbn [mbind result_bind lift outcome_bind]. by eexists.
Qed.

Lemma compute_lfp_filter_fail (f : failure) :
  butter_lowpass_filter zero lfilter lfp_in DOWNSAMPLE = Fail f →
  compute_lfp zero lfilter DOWNSAMPLE c_samples start_time = Fail f.
Proof.
  intros Hlfp. unfold compute_lfp, slice_from. rewrite decide_True by done.
  by rewrite Hlfp.
Qed.

(** When the number [n] of rows from [start_time] on is not a multiple of
    [DOWNSAMPLE], [compute_lfp] returns: [LFP_ds] has one row for each
    column but the last two, the filtered column from [start_time] on at
    every [DOWNSAMPLE]-th position, of length [floor(n / DOWNSAMPLE) + 1]. *)
Theorem compute_lfp_returns :
  Z.of_nat nleft mod DOWNSAMPLE ≠ 0 →
  ∃ LFP_ds eyes_ds,
    compute_lfp zero lfilter DOWNSAMPLE c_samples start_time =
      Return (LFP_ds, eyes_ds)
    ∧ length LFP_ds = (shape1 c_samples - 2)%nat
    ∧ ∀ i, (i < shape1 c_samples - 2)%nat →
        ∃ row,
          LFP_ds !! i = Some row
          ∧ length row = Z.to_nat (Z.of_nat nleft / DOWNSAMPLE + 1)
          ∧ ∀ k, row !! k =
                 lfilter (drop (Z.to_nat start_time) (column zero c_samples i))
                   !! Z.to_nat (Z.of_nat k * DOWNSAMPLE).
Proof.
  intros Hmod.
  destruct (butter_rows_aux zero lfilter lfilter_keeps_length lfp_in
              lfp_in_shape DOWNSAMPLE DOWNSAMPLE_pos)
    as (lfp & Hlfp & Hlen & Hrows); [by rewrite lfp_in_rows|].
  destruct (compute_lfp_after_filter lfp Hlfp) as [eyes_ds Heyes].
  exists lfp, eyes_ds. split; [done|]. split; [done|].
  intros i Hi. destruct (Hrows i Hi) as (row & Hrow & Hl & Hk).
  exists row. split; [done|]. split; [by rewrite <- lfp_in_rows|].
  intros k. by rewrite Hk, lfp_in_column.
Qed.

(** When the number of rows from [start_time] on is a multiple of
    [DOWNSAMPLE] and more than [DOWNSAMPLE], and there is a column besides
    the two eye columns, [compute_lfp] raises the [ValueError] of
    [butter_lowpass_filter]. *)
Theorem compute_lfp_multiple :
  (3 ≤ shape1 c_samples)%nat →
  DOWNSAMPLE < Z.of_nat nleft →
  Z.of_nat nleft mod DOWNSAMPLE = 0 →
  compute_lfp zero lfilter DOWNSAMPLE c_samples start_time =
    Fail (Builtin ValueError).
Proof.
  intros Hcols Hlt Hmod. apply compute_lfp_filter_fail.
  apply (butter_multiple_aux zero lfilter lfilter_keeps_length lfp_in
           lfp_in_shape DOWNSAMPLE DOWNSAMPLE_pos).
  - cbn [shape1]. lia.
  - by rewrite lfp_in_rows.
  - by rewrite lfp_in_rows.
Qed.

End LfpProperties.

Lemma samples_5x3_shape : well_shaped samples_5x3.
Proof. split; [reflexivity|]. by repeat constructor. Qed.

Lemma compute_lfp_eyes_witness :
  shape0 {| shape0 := 2; shape1 := 3;
            rows := [[10; 20; 30]; [300; 400; 500]] |} = 2%nat
  ∧ ∀ r k, (r < 2)%nat → Z.of_nat k * 2 < Z.of_nat (rows_left samples_5x3 0) →
      let j := (r * rows_left samples_5x3 0 + Z.to_nat (Z.of_nat k * 2))%nat in
      ∃ row v,
        rows {| shape0 := 2; shape1 := 3;
                rows := [[10; 20; 30]; [300; 400; 500]] |} !! r = Some row
        ∧ row !! k = Some v
        ∧ rows samples_5x3 !! (Z.to_nat 0 + j / 2)%nat
            ≫= (fun s => s !! (shape1 samples_5x3 - 2 + j mod 2)%nat) = Some v.
Proof.
  apply (compute_lfp_eyes 0 double_samples samples_5x3 samples_5x3_shape
           ltac:(simpl; lia) 0 ltac:(lia) 2 ltac:(lia) [[2; 6; 10]]).
  vm_compute. reflexivity.
Defined.

Lemma samples_4x3_shape : well_shaped samples_4x3.
Proof. split; [reflexivity|]. by repeat constructor. Qed.

Lemma compute_lfp_returns_witness :
  ∃ LFP_ds eyes_ds,
    compute_lfp 0 double_samples 2 samples_5x3 2 = Return (LFP_ds, eyes_ds)
    ∧ length LFP_ds = (shape1 samples_5x3 - 2)%nat
    ∧ ∀ i, (i < shape1 samples_5x3 - 2)%nat →
        ∃ row,
          LFP_ds !! i = Some row
          ∧ length row = Z.to_nat (Z.of_nat (rows_left samples_5x3 2) / 2 + 1)
          ∧ ∀ k, row !! k =
                 double_samples (drop (Z.to_nat 2) (column 0 samples_5x3 i))
                   !! Z.to_nat (Z.of_nat k * 2).
Proof.
  apply (compute_lfp_returns 0 double_samples samples_5x3 samples_5x3_shape
           ltac:(simpl; lia) 2 ltac:(lia) 2 ltac:(lia) double_samples_length).
  vm_compute. discriminate.
Defined.

Lemma compute_lfp_multiple_witness :
  compute_lfp 0 double_samples 2 samples_4x3 0 = Fail (Builtin ValueError).
Proof.
  apply (compute_lfp_multiple 0 double_samples samples_4x3 samples_4x3_shape
           ltac:(simpl; lia) 0 ltac:(lia) 2 ltac:(lia) double_samples_length).
  - simpl. lia.
  - vm_compute. reflexivity.
  - reflexivity.
Defined.
